(** * Call lifecycle orchestration: dashboard reconciler and call-engine scenario

    A shallow embedding of
    - [frontend/src/App.jsx] ([handleWebSocketMessage]),
    - [frontend/src/hooks/useWebSocket.js] (the reconnecting socket hook),
    - [voximplant/scenarios/registration_recovery.js] and its sibling for
      dormant reactivation (the per-call scenario and [sendWebhook]),
    together with the properties the specification states about them. *)

From Stdlib Require Import ZArith Lia.
From stdpp Require Import base list strings.

(** ** JavaScript values carried by the JSON envelopes

    Every field read from a parsed JSON envelope is either absent
    ([undefined]) or a JSON primitive.  Numbers are modelled as integers
    (the only numeric field of the envelopes is [cx_score]); object- and
    array-valued fields do not occur in the envelopes and are left out. *)

Inductive jsval :=
| JUndefined
| JNull
| JBool (b : bool)
| JNum (n : Z)
| JStr (s : string).

#[global] Instance jsval_eq_dec : EqDecision jsval.
Proof. solve_decision. Defined.

(** JavaScript truthiness, as used by [a || b]. *)
Definition truthy (v : jsval) : bool :=
  match v with
  | JUndefined | JNull => false
  | JBool b => b
  | JNum n => negb (n =? 0)%Z
  | JStr s => match s with EmptyString => false | String _ _ => true end
  end.

Definition js_or (a b : jsval) : jsval := if truthy a then a else b.

(** ** The dashboard reconciler ([App.jsx]) *)

Module Dashboard.

(** A broadcast message after [JSON.parse]: the fields the handler reads.
    A field the message lacks reads as [undefined].  Console output is not
    modelled. *)
Record message := Message {
  msg_type : jsval;
  msg_call_id : jsval;
  msg_lead_id : jsval;
  msg_lead_name : jsval;
  msg_timestamp : jsval;
  msg_disposition : jsval;
  msg_cx_score : jsval;
  msg_summary : jsval
}.

(** An element of the [activeCalls] array. *)
Record active_call := ActiveCall {
  ac_call_id : jsval;
  ac_lead_id : jsval;
  ac_lead_name : jsval;
  ac_timestamp : jsval
}.

(** An element of the [recentResults] array. *)
Record recent_result := RecentResult {
  rr_call_id : jsval;
  rr_disposition : jsval;
  rr_cx_score : jsval;
  rr_summary : jsval;
  rr_timestamp : string
}.

(** A browser notification: the two values interpolated in its body. *)
Record notification := Notification {
  nt_disposition : jsval;
  nt_cx_score : jsval
}.

(** What the handler reads from the browser when it runs:
    [new Date().toISOString()] and [Notification.permission === 'granted']. *)
Record browser := Browser {
  now : string;
  permission_granted : bool
}.

(** The two [useState] cells of [App], and the notifications shown. *)
Record app_state := AppState {
  activeCalls : list active_call;
  recentResults : list recent_result;
  notifications : list notification
}.

Definition initial : app_state :=
  {| activeCalls := []; recentResults := []; notifications := [] |}.

Definition setActiveCalls (f : list active_call → list active_call)
    (st : app_state) : app_state :=
  {| activeCalls := f (activeCalls st);
     recentResults := recentResults st;
     notifications := notifications st |}.

Definition setRecentResults (f : list recent_result → list recent_result)
    (st : app_state) : app_state :=
  {| activeCalls := activeCalls st;
     recentResults := f (recentResults st);
     notifications := notifications st |}.

Definition notify (n : notification) (st : app_state) : app_state :=
  {| activeCalls := activeCalls st;
     recentResults := recentResults st;
     notifications := notifications st ++ [n] |}.

(** [Array.prototype.slice(0, n)]. *)
Definition slice0 {A} (n : nat) (l : list A) : list A := take n l.

Definition new_active_call (message : message) : active_call :=
  {| ac_call_id := msg_call_id message;
     ac_lead_id := msg_lead_id message;
     ac_lead_name := msg_lead_name message;
     ac_timestamp := msg_timestamp message |}.

Definition new_recent_result (b : browser) (message : message) : recent_result :=
  {| rr_call_id := msg_call_id message;
     rr_disposition := msg_disposition message;
     rr_cx_score := msg_cx_score message;
     rr_summary := msg_summary message;
     rr_timestamp := now b |}.

(** [handleWebSocketMessage] of [App.jsx]: three branches on
    [message.type]; any other type falls through unchanged. *)
Definition handleWebSocketMessage (b : browser) (message : message)
    (st : app_state) : app_state :=
  if decide (msg_type message = JStr "call_started") then
    setActiveCalls (λ prev, prev ++ [new_active_call message]) st
  else if decide (msg_type message = JStr "call_ended") then
    setActiveCalls
      (λ prev, filter (λ call, ac_call_id call ≠ msg_call_id message) prev) st
  else if decide (msg_type message = JStr "call_result") then
    let st' :=
      setRecentResults
        (λ prev, slice0 10 (new_recent_result b message :: prev)) st in
    if permission_granted b then
      notify {| nt_disposition := msg_disposition message;
                nt_cx_score := msg_cx_score message |} st'
    else st'
  else st.

(** Processing a sequence of deliveries, oldest first. *)
Definition process (evs : list (browser * message)) (st : app_state) : app_state :=
  foldl (λ s e, handleWebSocketMessage (fst e) (snd e) s) st evs.

(** The [call_id]s currently shown as active. *)
Definition active_ids (st : app_state) : list jsval :=
  ac_call_id <$> activeCalls st.

Definition is_call_result (e : browser * message) : bool :=
  bool_decide (msg_type (snd e) = JStr "call_result").

(** The entries built from the [call_result] deliveries, oldest first. *)
Definition results_of (evs : list (browser * message)) : list recent_result :=
  (λ e, new_recent_result (fst e) (snd e)) <$> filter is_call_result evs.

(** Messages used in examples. *)
Definition lifecycle (ty : string) (id : string) : message :=
  {| msg_type := JStr ty; msg_call_id := JStr id;
     msg_lead_id := JUndefined; msg_lead_name := JUndefined;
     msg_timestamp := JUndefined; msg_disposition := JUndefined;
     msg_cx_score := JUndefined; msg_summary := JUndefined |}.

Definition result_msg (id : string) (disposition : string) (score : Z) : message :=
  {| msg_type := JStr "call_result"; msg_call_id := JStr id;
     msg_lead_id := JUndefined; msg_lead_name := JUndefined;
     msg_timestamp := JUndefined; msg_disposition := JStr disposition;
     msg_cx_score := JNum score; msg_summary := JStr "..." |}.

Definition at_ (t : string) : browser :=
  {| now := t; permission_granted := false |}.

End Dashboard.

(** ** The reconnecting socket hook ([hooks/useWebSocket.js])

    The hook owns one [useEffect] closure ([isCleanedUp], [connect]), two
    refs ([wsRef], [reconnectTimeoutRef]) and two state cells.  The browser
    drives it through socket callbacks, timer expiry, the ping interval and
    unmounting.  The [onMessage] callback is [App]'s
    [handleWebSocketMessage].  Console output is not modelled. *)

Module Socket.

Inductive ready_state := CONNECTING | OPEN | CLOSING | CLOSED.

#[global] Instance ready_state_eq_dec : EqDecision ready_state.
Proof. solve_decision. Defined.

Inductive timer_status := Pending | Fired | Cleared.

#[global] Instance timer_status_eq_dec : EqDecision timer_status.
Proof. solve_decision. Defined.

(** A [setTimeout] registration: its delay in milliseconds. *)
Record timer := Timer { delay : Z; status : timer_status }.

(** [event.data] of a socket message, as [JSON.parse] and the first
    field read see it: unparsable text, the value [null] (reading
    [message.type] throws), or an object.  Any other JSON value reads like
    an object without fields. *)
Inductive payload :=
| Unparsable
| ParsedNull
| ParsedObject (m : Dashboard.message).

Inductive outgoing := Ping.

Record hook_state := HookState {
  isConnected : bool;
  lastMessage : option payload;
  wsRef : option nat;
  reconnectTimeoutRef : option nat;
  isCleanedUp : bool;
  sockets : list ready_state;        (* every WebSocket constructed, in order *)
  timers : list timer;               (* every setTimeout issued, in order *)
  sent : list (nat * outgoing);      (* ws.send calls: socket and message *)
  app : Dashboard.app_state          (* the state cells behind onMessage *)
}.

(** The refs and state cells before the effect runs. *)
Definition unmounted : hook_state :=
  {| isConnected := false; lastMessage := None; wsRef := None;
     reconnectTimeoutRef := None; isCleanedUp := false;
     sockets := []; timers := []; sent := []; app := Dashboard.initial |}.

Definition setIsConnected (b : bool) (s : hook_state) : hook_state :=
  {| isConnected := b; lastMessage := lastMessage s; wsRef := wsRef s;
     reconnectTimeoutRef := reconnectTimeoutRef s; isCleanedUp := isCleanedUp s;
     sockets := sockets s; timers := timers s; sent := sent s; app := app s |}.

Definition setLastMessage (d : payload) (s : hook_state) : hook_state :=
  {| isConnected := isConnected s; lastMessage := Some d; wsRef := wsRef s;
     reconnectTimeoutRef := reconnectTimeoutRef s; isCleanedUp := isCleanedUp s;
     sockets := sockets s; timers := timers s; sent := sent s; app := app s |}.

Definition with_sockets (l : list ready_state) (s : hook_state) : hook_state :=
  {| isConnected := isConnected s; lastMessage := lastMessage s; wsRef := wsRef s;
     reconnectTimeoutRef := reconnectTimeoutRef s; isCleanedUp := isCleanedUp s;
     sockets := l; timers := timers s; sent := sent s; app := app s |}.

Definition with_timers (l : list timer) (s : hook_state) : hook_state :=
  {| isConnected := isConnected s; lastMessage := lastMessage s; wsRef := wsRef s;
     reconnectTimeoutRef := reconnectTimeoutRef s; isCleanedUp := isCleanedUp s;
     sockets := sockets s; timers := l; sent := sent s; app := app s |}.

Definition with_app (a : Dashboard.app_state) (s : hook_state) : hook_state :=
  {| isConnected := isConnected s; lastMessage := lastMessage s; wsRef := wsRef s;
     reconnectTimeoutRef := reconnectTimeoutRef s; isCleanedUp := isCleanedUp s;
     sockets := sockets s; timers := timers s; sent := sent s; app := a |}.

(** [connect]: guarded by [isCleanedUp]; [new WebSocket] either throws
    (caught and logged) or yields a socket stored in [wsRef]. *)
Definition connect (ctor_throws : bool) (s : hook_state) : hook_state :=
  if isCleanedUp s then s
  else if ctor_throws then s
  else
    {| isConnected := isConnected s; lastMessage := lastMessage s;
       wsRef := Some (length (sockets s));
       reconnectTimeoutRef := reconnectTimeoutRef s; isCleanedUp := isCleanedUp s;
       sockets := sockets s ++ [CONNECTING]; timers := timers s;
       sent := sent s; app := app s |}.

(** [ws.onopen]. *)
Definition onopen (s : hook_state) : hook_state :=
  if isCleanedUp s then s else setIsConnected true s.

(** [ws.onmessage]: parse, remember, hand to [onMessage]; any exception
    is caught. *)
Definition onmessage (b : Dashboard.browser) (d : payload) (s : hook_state)
    : hook_state :=
  if isCleanedUp s then s
  else match d with
       | Unparsable => s
       | ParsedNull => setLastMessage d s
       | ParsedObject m =>
           let s1 := setLastMessage d s in
           with_app (Dashboard.handleWebSocketMessage b m (app s1)) s1
       end.

(** [ws.onerror] only logs. *)
Definition onerror (s : hook_state) : hook_state := s.

(** [ws.onclose]: schedule [connect] after 3000 ms. *)
Definition onclose (s : hook_state) : hook_state :=
  if isCleanedUp s then s
  else
    let s1 := setIsConnected false s in
    {| isConnected := isConnected s1; lastMessage := lastMessage s1;
       wsRef := wsRef s1;
       reconnectTimeoutRef := Some (length (timers s1));
       isCleanedUp := isCleanedUp s1; sockets := sockets s1;
       timers := timers s1 ++ [{| delay := 3000; status := Pending |}];
       sent := sent s1; app := app s1 |}.

(** The callback given to [setTimeout]. *)
Definition reconnect_callback (ctor_throws : bool) (s : hook_state) : hook_state :=
  if isCleanedUp s then s else connect ctor_throws s.

Definition set_timer_status (t : nat) (st : timer_status) (l : list timer)
    : list timer :=
  alter (λ tm, {| delay := delay tm; status := st |}) t l.

Definition clearTimeout (t : nat) (s : hook_state) : hook_state :=
  match timers s !! t with
  | Some {| delay := _; status := Pending |} =>
      with_timers (set_timer_status t Cleared (timers s)) s
  | _ => s
  end.

(** [ws.close()]: an open or connecting socket starts closing. *)
Definition ws_close (i : nat) (s : hook_state) : hook_state :=
  match sockets s !! i with
  | Some CONNECTING | Some OPEN => with_sockets (<[i := CLOSING]> (sockets s)) s
  | _ => s
  end.

(** The effect's cleanup function. *)
Definition cleanup (s : hook_state) : hook_state :=
  let s1 :=
    {| isConnected := isConnected s; lastMessage := lastMessage s;
       wsRef := wsRef s; reconnectTimeoutRef := reconnectTimeoutRef s;
       isCleanedUp := true; sockets := sockets s; timers := timers s;
       sent := sent s; app := app s |} in
  let s2 := match reconnectTimeoutRef s1 with
            | Some t => clearTimeout t s1
            | None => s1
            end in
  match wsRef s2 with
  | Some i => ws_close i s2
  | None => s2
  end.

(** [sendMessage]: send on the current socket when it is open. *)
Definition sendMessage (m : outgoing) (s : hook_state) : hook_state :=
  match wsRef s with
  | Some i =>
      if decide (sockets s !! i = Some OPEN) then
        {| isConnected := isConnected s; lastMessage := lastMessage s;
           wsRef := wsRef s; reconnectTimeoutRef := reconnectTimeoutRef s;
           isCleanedUp := isCleanedUp s; sockets := sockets s;
           timers := timers s; sent := sent s ++ [(i, m)]; app := app s |}
      else s
  | None => s
  end.

(** What the browser can do to the hook.  [ClosingStarts] is the start of
    the closing handshake on an open socket (the server sends its Close
    frame): the browser sets [readyState] to [CLOSING] and calls no
    handler; the [close] event comes later, as [SocketClose]. *)
Inductive event :=
| SocketOpen (i : nat)
| SocketMessage (i : nat) (b : Dashboard.browser) (d : payload)
| SocketError (i : nat)
| SocketClose (i : nat)
| TimerFires (t : nat) (ctor_throws : bool)
| PingTick
| Unmount
| ClosingStarts (i : nat).

(** One browser event.  The browser updates [readyState] before it calls
    the socket's handler, delivers messages on an open socket only, fires
    a timer at most once and never after it was cleared, and runs the ping
    interval only while [isConnected] holds and the component is
    mounted. *)
Definition step (s : hook_state) (e : event) : hook_state :=
  match e with
  | SocketOpen i =>
      match sockets s !! i with
      | Some CONNECTING => onopen (with_sockets (<[i := OPEN]> (sockets s)) s)
      | _ => s
      end
  | SocketMessage i b d =>
      match sockets s !! i with
      | Some OPEN => onmessage b d s
      | _ => s
      end
  | SocketError i =>
      match sockets s !! i with
      | Some _ => onerror s
      | None => s
      end
  | SocketClose i =>
      match sockets s !! i with
      | Some CLOSED | None => s
      | Some _ => onclose (with_sockets (<[i := CLOSED]> (sockets s)) s)
      end
  | TimerFires t ctor_throws =>
      match timers s !! t with
      | Some {| delay := _; status := Pending |} =>
          reconnect_callback ctor_throws
            (with_timers (set_timer_status t Fired (timers s)) s)
      | _ => s
      end
  | PingTick =>
      if isConnected s && negb (isCleanedUp s) then sendMessage Ping s else s
  | Unmount => if isCleanedUp s then s else cleanup s
  | ClosingStarts i =>
      match sockets s !! i with
      | Some OPEN => with_sockets (<[i := CLOSING]> (sockets s)) s
      | _ => s
      end
  end.

Definition run (evs : list event) (s : hook_state) : hook_state :=
  foldl step s evs.

(** The delay of every reconnection timer. *)
Definition fixed_delay (tm : timer) : Prop := delay tm = 3000%Z.

(** The effect body runs once, on mount: it calls [connect]. *)
Definition mounted (ctor_throws : bool) : hook_state :=
  connect ctor_throws unmounted.

End Socket.

(** ** The call-engine scenario ([registration_recovery.js] and its
       dormant-reactivation sibling)

    One scenario instance serves one call.  JavaScript runs each callback to
    its next [await]; the platform then resumes it when the awaited promise
    settles.  The embedding therefore splits every [async] function at its
    [await]s: a callback is an action on the session state, and what
    follows an [await sendWebhook(...)] is kept with the pending request as
    a [continuation].  [Logger.write] output is collected on the side. *)

Module Scenario.

(** The two scenario files share their control flow; they differ in the
    context field, two log lines and the text of the tool response. *)
Inductive campaign := RegistrationRecovery | DormantReactivation.

(** The fields read from [leadData]. *)
Record lead_data := LeadData {
  ld_call_id : jsval;
  ld_lead_id : jsval;
  ld_name : jsval;
  ld_type : jsval;
  ld_phone : jsval;
  ld_drop_stage : jsval;
  ld_last_active : jsval
}.

(** What [JSON.parse(call.customData())] and the first field read give:
    a [SyntaxError], the value [null] (reading [leadData.call_id] throws a
    [TypeError]), or field values. *)
Inductive custom_data :=
| ParseThrows (message stack : jsval)
| ParsedNull (message stack : jsval)
| ParsedObject (leadData : lead_data).

(** [callData]; [{}] has every field [undefined].  [cd_context] is
    [drop_stage] in one file and [last_active] in the other. *)
Record call_data := CallData {
  cd_call_id : jsval;
  cd_lead_id : jsval;
  cd_lead_name : jsval;
  cd_lead_type : jsval;
  cd_context : jsval
}.

Definition empty_callData : call_data :=
  {| cd_call_id := JUndefined; cd_lead_id := JUndefined;
     cd_lead_name := JUndefined; cd_lead_type := JUndefined;
     cd_context := JUndefined |}.

(** The object literal handed to [sendWebhook]: keys in source order. *)
Definition webhook := list (string * jsval).

Fixpoint field (k : string) (data : webhook) : jsval :=
  match data with
  | [] => JUndefined
  | (k', v) :: rest => if decide (k' = k) then v else field k rest
  end.

(** [JSON.stringify] on such an object omits the keys whose value is
    [undefined]; the result is kept as the key/value list the text
    encodes. *)
Definition JSON_stringify (data : webhook) : webhook :=
  filter (λ kv, snd kv ≠ JUndefined) data.

Definition keys (data : webhook) : list string := fst <$> data.

Record tool_params := ToolParams {
  tp_disposition : jsval;
  tp_cx_score : jsval;
  tp_summary : jsval
}.

(** [event.data] of a [ToolCall]; [fc_parameters] is [None] when
    [functionCall.parameters] is not an object. *)
Record function_call := FunctionCall {
  fc_name : jsval;
  fc_id : jsval;
  fc_parameters : option tool_params
}.

Record tool_response := ToolResponse {
  tr_id : jsval;
  tr_success : bool;
  tr_message : campaign     (* the confirmation text of that scenario file *)
}.

(** Where the caller of [await sendWebhook(...)] resumes. *)
Inductive continuation :=
| ResumeSetup
| ResumeToolCall (id : jsval) (p : tool_params)
| ResumeDisconnected
| ResumeFailed
| ResumeCatch.

(** One [Net.httpRequestAsync] call. *)
Record request := Request {
  req_data : webhook;
  req_cont : continuation;
  req_settled : bool
}.

(** The body posted: [postData: JSON.stringify(data)]. *)
Definition postData (r : request) : webhook := JSON_stringify (req_data r).

Record timer := Timer { delay : Z; fired : bool }.

Record gemini_client := GeminiClient { closes : nat }.

Inductive log_line :=
| LogCallAnswered
| LogCalling (name phone : jsval)
| LogContext (c : campaign) (v : jsval)
| LogInitGemini
| LogGeminiSocketClosed
| LogGeminiSocketEvent (evt : jsval)
| LogConnected
| LogAudioBridge
| LogFunctionCalled
| LogFunctionName (name : jsval)
| LogFunctionParameters (p : option tool_params)
| LogSavingResult
| LogResultSaved
| LogDisposition (v : jsval)
| LogCxScore (v : jsval)
| LogSummary (v : jsval)
| LogHangingUp
| LogCallDisconnected
| LogCallFailed
| LogScenarioError
| LogErrorMessage (m : jsval)
| LogErrorStack (st : jsval)
| LogWebhookSent (ty : jsval)
| LogWebhookFailed (m : jsval).

Record state := State {
  alerted : bool;                 (* the CallAlerting handler was entered *)
  terminated : bool;              (* VoxEngine.terminate() *)
  answered : bool;                (* call.answer() *)
  hangups : nat;                  (* call.hangup() invocations *)
  callData : call_data;
  connecting : bool;              (* awaiting Gemini.createLiveAPIClient *)
  geminiClient : option gemini_client;
  bridged : bool;                 (* VoxEngine.sendMediaBetween *)
  toolCallListener : bool;
  disconnectedListener : bool;
  failedListener : bool;
  requests : list request;        (* every POST issued, in order *)
  toolResponses : list tool_response;
  timers : list timer             (* every setTimeout issued, in order *)
}.

Definition initial : state :=
  {| alerted := false; terminated := false; answered := false; hangups := 0;
     callData := empty_callData; connecting := false; geminiClient := None;
     bridged := false; toolCallListener := false;
     disconnectedListener := false; failedListener := false;
     requests := []; toolResponses := []; timers := [] |}.

(** *** The session monad: state passing with a log on the side *)

Definition Rt (A : Type) : Type := state → A * state * list log_line.

#[global] Instance Rt_ret : MRet Rt := λ A x s, (x, s, []).

#[global] Instance Rt_bind : MBind Rt := λ A B f m s,
  let '(x, s1, l1) := m s in
  let '(y, s2, l2) := f x s1 in
  (y, s2, l1 ++ l2).

Definition get {A} (f : state → A) : Rt A := λ s, (f s, s, []).
Definition modify (f : state → state) : Rt unit := λ s, (tt, f s, []).
Definition Logger_write (l : log_line) : Rt unit := λ s, (tt, s, [l]).
Definition skip : Rt unit := mret tt.

Definition exec (m : Rt unit) (s : state) : state * list log_line :=
  let '(_, s', l) := m s in (s', l).

(** *** Field updates *)

Definition set_alerted (s : state) : state :=
  {| alerted := true; terminated := terminated s; answered := answered s;
     hangups := hangups s; callData := callData s; connecting := connecting s;
     geminiClient := geminiClient s; bridged := bridged s;
     toolCallListener := toolCallListener s;
     disconnectedListener := disconnectedListener s;
     failedListener := failedListener s; requests := requests s;
     toolResponses := toolResponses s; timers := timers s |}.

Definition set_terminated (s : state) : state :=
  {| alerted := alerted s; terminated := true; answered := answered s;
     hangups := hangups s; callData := callData s; connecting := connecting s;
     geminiClient := geminiClient s; bridged := bridged s;
     toolCallListener := toolCallListener s;
     disconnectedListener := disconnectedListener s;
     failedListener := failedListener s; requests := requests s;
     toolResponses := toolResponses s; timers := timers s |}.

Definition set_answered (s : state) : state :=
  {| alerted := alerted s; terminated := terminated s; answered := true;
     hangups := hangups s; callData := callData s; connecting := connecting s;
     geminiClient := geminiClient s; bridged := bridged s;
     toolCallListener := toolCallListener s;
     disconnectedListener := disconnectedListener s;
     failedListener := failedListener s; requests := requests s;
     toolResponses := toolResponses s; timers := timers s |}.

Definition add_hangup (s : state) : state :=
  {| alerted := alerted s; terminated := terminated s; answered := answered s;
     hangups := S (hangups s); callData := callData s;
     connecting := connecting s;
     geminiClient := geminiClient s; bridged := bridged s;
     toolCallListener := toolCallListener s;
     disconnectedListener := disconnectedListener s;
     failedListener := failedListener s; requests := requests s;
     toolResponses := toolResponses s; timers := timers s |}.

Definition set_callData (cd : call_data) (s : state) : state :=
  {| alerted := alerted s; terminated := terminated s; answered := answered s;
     hangups := hangups s; callData := cd; connecting := connecting s;
     geminiClient := geminiClient s; bridged := bridged s;
     toolCallListener := toolCallListener s;
     disconnectedListener := disconnectedListener s;
     failedListener := failedListener s; requests := requests s;
     toolResponses := toolResponses s; timers := timers s |}.

Definition set_connecting (b : bool) (s : state) : state :=
  {| alerted := alerted s; terminated := terminated s; answered := answered s;
     hangups := hangups s; callData := callData s; connecting := b;
     geminiClient := geminiClient s; bridged := bridged s;
     toolCallListener := toolCallListener s;
     disconnectedListener := disconnectedListener s;
     failedListener := failedListener s; requests := requests s;
     toolResponses := toolResponses s; timers := timers s |}.

Definition set_geminiClient (g : option gemini_client) (s : state) : state :=
  {| alerted := alerted s; terminated := terminated s; answered := answered s;
     hangups := hangups s; callData := callData s; connecting := connecting s;
     geminiClient := g; bridged := bridged s;
     toolCallListener := toolCallListener s;
     disconnectedListener := disconnectedListener s;
     failedListener := failedListener s; requests := requests s;
     toolResponses := toolResponses s; timers := timers s |}.

Definition set_bridged (s : state) : state :=
  {| alerted := alerted s; terminated := terminated s; answered := answered s;
     hangups := hangups s; callData := callData s; connecting := connecting s;
     geminiClient := geminiClient s; bridged := true;
     toolCallListener := toolCallListener s;
     disconnectedListener := disconnectedListener s;
     failedListener := failedListener s; requests := requests s;
     toolResponses := toolResponses s; timers := timers s |}.

Definition set_listeners (t d f : bool) (s : state) : state :=
  {| alerted := alerted s; terminated := terminated s; answered := answered s;
     hangups := hangups s; callData := callData s; connecting := connecting s;
     geminiClient := geminiClient s; bridged := bridged s;
     toolCallListener := t; disconnectedListener := d; failedListener := f;
     requests := requests s;
     toolResponses := toolResponses s; timers := timers s |}.

Definition set_requests (rs : list request) (s : state) : state :=
  {| alerted := alerted s; terminated := terminated s; answered := answered s;
     hangups := hangups s; callData := callData s; connecting := connecting s;
     geminiClient := geminiClient s; bridged := bridged s;
     toolCallListener := toolCallListener s;
     disconnectedListener := disconnectedListener s;
     failedListener := failedListener s; requests := rs;
     toolResponses := toolResponses s; timers := timers s |}.

Definition set_toolResponses (l : list tool_response) (s : state) : state :=
  {| alerted := alerted s; terminated := terminated s; answered := answered s;
     hangups := hangups s; callData := callData s; connecting := connecting s;
     geminiClient := geminiClient s; bridged := bridged s;
     toolCallListener := toolCallListener s;
     disconnectedListener := disconnectedListener s;
     failedListener := failedListener s; requests := requests s;
     toolResponses := l; timers := timers s |}.

Definition set_timers (l : list timer) (s : state) : state :=
  {| alerted := alerted s; terminated := terminated s; answered := answered s;
     hangups := hangups s; callData := callData s; connecting := connecting s;
     geminiClient := geminiClient s; bridged := bridged s;
     toolCallListener := toolCallListener s;
     disconnectedListener := disconnectedListener s;
     failedListener := failedListener s; requests := requests s;
     toolResponses := toolResponses s; timers := l |}.

(** *** Platform calls *)

Definition call_answer : Rt unit := modify set_answered.
Definition call_hangup : Rt unit := modify add_hangup.
Definition VoxEngine_terminate : Rt unit := modify set_terminated.

(** [if (geminiClient) geminiClient.close()]. *)
Definition close_geminiClient : Rt unit :=
  g ← get geminiClient;
  match g with
  | Some c => modify (set_geminiClient (Some {| closes := S (closes c) |}))
  | None => skip
  end.

Definition geminiClient_sendToolResponse (r : tool_response) : Rt unit :=
  modify (λ s, set_toolResponses (toolResponses s ++ [r]) s).

Definition setTimeout (ms : Z) : Rt unit :=
  modify (λ s, set_timers (timers s ++ [{| delay := ms; fired := false |}]) s).

(** *** [sendWebhook]

    The part before its [await]: one [Net.httpRequestAsync] POST of
    [JSON.stringify(data)].  The caller, itself awaiting [sendWebhook],
    is suspended with it; [k] says where it resumes. *)
Definition sendWebhook (data : webhook) (k : continuation) : Rt unit :=
  modify (λ s,
    set_requests
      (requests s ++ [{| req_data := data; req_cont := k; req_settled := false |}])
      s).

(** How the awaited request can settle: the promise resolves with a
    response (whatever its status code) or rejects. *)
Inductive http_outcome :=
| Responded (code : Z)
| Rejected (message : jsval).

(** The part of [sendWebhook] after its [await]: the [try] arm logs the
    event type, the [catch] arm logs the error; both return to the caller. *)
Definition sendWebhook_settled (data : webhook) (o : http_outcome) : Rt unit :=
  match o with
  | Responded _ => Logger_write (LogWebhookSent (field "type" data))
  | Rejected m => Logger_write (LogWebhookFailed m)
  end.

(** *** The webhook envelopes built by the scenario *)

Definition call_started_event (cd : call_data) (vox_id : jsval) (now : string)
    : webhook :=
  [("type", JStr "call_started");
   ("call_id", cd_call_id cd);
   ("lead_id", cd_lead_id cd);
   ("lead_name", cd_lead_name cd);
   ("lead_type", cd_lead_type cd);
   ("voximplant_call_id", vox_id);
   ("timestamp", JStr now)].

Definition call_result_event (cd : call_data) (p : tool_params) : webhook :=
  [("type", JStr "call_result");
   ("call_id", cd_call_id cd);
   ("lead_id", cd_lead_id cd);
   ("disposition", tp_disposition p);
   ("cx_score", tp_cx_score p);
   ("summary", tp_summary p)].

Definition call_ended_event (cd : call_data) : webhook :=
  [("type", JStr "call_ended");
   ("call_id", cd_call_id cd)].

Definition call_error_event (cd : call_data) (message : jsval) : webhook :=
  [("type", JStr "call_error");
   ("call_id", cd_call_id cd);
   ("error", message)].

(** *** The [CallAlerting] handler *)

(** The [catch] block, up to its [await sendWebhook]. *)
Definition catch_block (c : campaign) (message stack : jsval) : Rt unit :=
  Logger_write LogScenarioError;;
  Logger_write (LogErrorMessage message);;
  match c with
  | RegistrationRecovery => Logger_write (LogErrorStack stack)
  | DormantReactivation => skip
  end;;
  cd ← get callData;
  sendWebhook (call_error_event cd message) ResumeCatch.

(** The [catch] block after its [await]. *)
Definition catch_block_resumed : Rt unit :=
  call_hangup;;
  VoxEngine_terminate.

Definition context_of (c : campaign) (leadData : lead_data) : jsval :=
  match c with
  | RegistrationRecovery => ld_drop_stage leadData
  | DormantReactivation => ld_last_active leadData
  end.

(** From [call.answer()] to the first [await]. *)
Definition on_CallAlerting (c : campaign) (customData : custom_data)
    (vox_id : jsval) (now : string) : Rt unit :=
  modify set_alerted;;
  call_answer;;
  Logger_write LogCallAnswered;;
  match customData with
  | ParseThrows message stack => catch_block c message stack
  | ParsedNull message stack => catch_block c message stack
  | ParsedObject leadData =>
      modify (set_callData
        {| cd_call_id := ld_call_id leadData;
           cd_lead_id := ld_lead_id leadData;
           cd_lead_name := ld_name leadData;
           cd_lead_type := ld_type leadData;
           cd_context := js_or (context_of c leadData) (JStr "unknown") |});;
      Logger_write (LogCalling (ld_name leadData) (ld_phone leadData));;
      Logger_write (LogContext c (context_of c leadData));;
      cd ← get callData;
      sendWebhook (call_started_event cd vox_id now) ResumeSetup
  end.

(** After [await sendWebhook(call_started)]: start connecting to Gemini
    and suspend on [await Gemini.createLiveAPIClient]. *)
Definition setup_resumed : Rt unit :=
  Logger_write LogInitGemini;;
  modify (set_connecting true).

(** How [Gemini.createLiveAPIClient] can settle. *)
Inductive gemini_outcome :=
| Connected
| ConnectFailed (message stack : jsval).

(** After the client is created: bridge the audio and register the three
    listeners; the handler then returns. *)
Definition gemini_connected : Rt unit :=
  modify (set_geminiClient (Some {| closes := 0 |}));;
  Logger_write LogConnected;;
  modify set_bridged;;
  Logger_write LogAudioBridge;;
  modify (set_listeners true true true).

Definition on_gemini_settled (c : campaign) (o : gemini_outcome) : Rt unit :=
  modify (set_connecting false);;
  match o with
  | Connected => gemini_connected
  | ConnectFailed message stack => catch_block c message stack
  end.

(** The [onWebSocketClose] callback of the client configuration. *)
Definition onWebSocketClose (c : campaign) (evt : jsval) : Rt unit :=
  Logger_write LogGeminiSocketClosed;;
  match c with
  | RegistrationRecovery => Logger_write (LogGeminiSocketEvent evt)
  | DormantReactivation => skip
  end.

(** *** The [ToolCall] listener *)

(** Up to [await sendWebhook(call_result)].  Reading a parameter of a
    missing [parameters] object throws and ends the listener. *)
Definition on_ToolCall (fc : function_call) : Rt unit :=
  Logger_write LogFunctionCalled;;
  Logger_write (LogFunctionName (fc_name fc));;
  Logger_write (LogFunctionParameters (fc_parameters fc));;
  if decide (fc_name fc = JStr "save_call_result") then
    match fc_parameters fc with
    | None => skip
    | Some p =>
        Logger_write LogSavingResult;;
        cd ← get callData;
        sendWebhook (call_result_event cd p) (ResumeToolCall (fc_id fc) p)
    end
  else skip.

(** After the [await]: acknowledge the tool call, then arm the hang-up
    timer. *)
Definition toolCall_resumed (c : campaign) (id : jsval) (p : tool_params)
    : Rt unit :=
  geminiClient_sendToolResponse
    {| tr_id := id; tr_success := true; tr_message := c |};;
  Logger_write LogResultSaved;;
  Logger_write (LogDisposition (tp_disposition p));;
  Logger_write (LogCxScore (tp_cx_score p));;
  match c with
  | RegistrationRecovery => Logger_write (LogSummary (tp_summary p))
  | DormantReactivation => skip
  end;;
  setTimeout 4000.

(** The callback given to [setTimeout]. *)
Definition hangup_callback : Rt unit :=
  Logger_write LogHangingUp;;
  call_hangup.

(** *** The [Disconnected] and [Failed] listeners *)

Definition on_Disconnected : Rt unit :=
  Logger_write LogCallDisconnected;;
  cd ← get callData;
  sendWebhook (call_ended_event cd) ResumeDisconnected.

Definition on_Failed : Rt unit :=
  Logger_write LogCallFailed;;
  cd ← get callData;
  sendWebhook (call_ended_event cd) ResumeFailed.

(** Both resume alike: close the Gemini client, end the session. *)
Definition ended_resumed : Rt unit :=
  close_geminiClient;;
  VoxEngine_terminate.

(** *** Resuming after a settled request *)

Definition resume (c : campaign) (k : continuation) : Rt unit :=
  match k with
  | ResumeSetup => setup_resumed
  | ResumeToolCall id p => toolCall_resumed c id p
  | ResumeDisconnected => ended_resumed
  | ResumeFailed => ended_resumed
  | ResumeCatch => catch_block_resumed
  end.

(** The promise of a request has settled; a timer has expired. *)
Definition settle (r : request) : request :=
  {| req_data := req_data r; req_cont := req_cont r; req_settled := true |}.

Definition expire (tm : timer) : timer :=
  {| delay := delay tm; fired := true |}.

Definition mark_settled (i : nat) : Rt unit :=
  modify (λ s, set_requests (alter settle i (requests s)) s).

Definition mark_fired (t : nat) : Rt unit :=
  modify (λ s, set_timers (alter expire t (timers s)) s).

(** *** What the platform can do to a session *)

Inductive event :=
| CallAlerting (customData : custom_data) (vox_id : jsval) (now : string)
| HttpSettled (i : nat) (o : http_outcome)
| GeminiSettled (o : gemini_outcome)
| GeminiSocketClose (evt : jsval)
| ToolCall (fc : function_call)
| Disconnected
| Failed
| TimerFires (t : nat).

(** The callback an event runs.  Nothing runs after
    [VoxEngine.terminate()]; an event without a registered listener, a
    settlement of a request that is not pending and the expiry of a timer
    that is not armed run nothing.

    The state holds the variables of one invocation of the [CallAlerting]
    handler.  The source has no guard against a second [CallAlerting] in
    the same session: it would run the handler again, with a [callData]
    and a [geminiClient] of its own, which this state does not hold.  Such
    an event is outside the model and runs nothing here; the order of a
    session's events is therefore stated for sessions alerted once
    ([Session.single_call]). *)
Definition handler (c : campaign) (e : event) (s : state) : Rt unit :=
  if terminated s then skip
  else
    match e with
    | CallAlerting customData vox_id now =>
        if alerted s then skip else on_CallAlerting c customData vox_id now
    | HttpSettled i o =>
        match requests s !! i with
        | Some r =>
            if req_settled r then skip
            else
              mark_settled i;;
              sendWebhook_settled (req_data r) o;;
              resume c (req_cont r)
        | None => skip
        end
    | GeminiSettled o =>
        if connecting s then on_gemini_settled c o else skip
    | GeminiSocketClose evt =>
        if connecting s || bool_decide (is_Some (geminiClient s))
        then onWebSocketClose c evt else skip
    | ToolCall fc =>
        if toolCallListener s then on_ToolCall fc else skip
    | Disconnected =>
        if disconnectedListener s then on_Disconnected else skip
    | Failed =>
        if failedListener s then on_Failed else skip
    | TimerFires t =>
        match timers s !! t with
        | Some tm =>
            if fired tm then skip else mark_fired t;; hangup_callback
        | None => skip
        end
    end.

Definition step (c : campaign) (s : state) (e : event) : state * list log_line :=
  exec (handler c e s) s.

(** A whole session: the final state and the log. *)
Fixpoint run (c : campaign) (evs : list event) (s : state)
    : state * list log_line :=
  match evs with
  | [] => (s, [])
  | e :: evs' =>
      let '(s1, l1) := step c s e in
      let '(s2, l2) := run c evs' s1 in
      (s2, l1 ++ l2)
  end.

(** *** Observations *)

(** The events emitted so far, in emission order. *)
Definition emitted (s : state) : list webhook := req_data <$> requests s.

Definition emitted_types (s : state) : list jsval := field "type" <$> emitted s.

Definition count_type (ty : string) (s : state) : nat :=
  length (filter (λ v, v = JStr ty) (emitted_types s)).

Definition is_save_call_result (fc : function_call) : Prop :=
  fc_name fc = JStr "save_call_result" ∧ is_Some (fc_parameters fc).

#[global] Instance is_save_call_result_dec fc : Decision (is_save_call_result fc).
Proof. unfold is_save_call_result. apply _. Defined.

(** The event is a [save_call_result] invocation that reaches the
    [ToolCall] listener of a session still running. *)
Definition captures_outcome (s : state) (e : event) : bool :=
  negb (terminated s) && toolCallListener s &&
  match e with
  | ToolCall fc => bool_decide (is_save_call_result fc)
  | _ => false
  end.

(** How many events of a run do so. *)
Fixpoint invocations (c : campaign) (evs : list event) (s : state) : nat :=
  match evs with
  | [] => 0
  | e :: evs' =>
      (if captures_outcome s e then 1 else 0) + invocations c evs' (fst (step c s e))
  end.

(** *** The lifecycle the flags implement

    The scenario keeps no explicit state variable; where a session stands
    shows in its flags and in the requests it has issued.  [phase] names
    the five shapes a session can have. *)

Definition has_type (ty : string) (r : request) : Prop :=
  field "type" (req_data r) = JStr ty.

(** A request issued by one of the three listeners. *)
Definition listener_request (r : request) : Prop :=
  (has_type "call_result" r ∧ ∃ id p, req_cont r = ResumeToolCall id p) ∨
  (has_type "call_ended" r ∧
   (req_cont r = ResumeDisconnected ∨ req_cont r = ResumeFailed)).

Definition started_request (r : request) (settled : bool) : Prop :=
  has_type "call_started" r ∧ req_cont r = ResumeSetup ∧ req_settled r = settled.

Definition error_request (r : request) : Prop :=
  has_type "call_error" r ∧ req_cont r = ResumeCatch.

Definition listeners (s : state) : bool * bool * bool :=
  (toolCallListener s, disconnectedListener s, failedListener s).

Inductive phase : state → Prop :=
| Fresh s :
    alerted s = false → connecting s = false → geminiClient s = None →
    listeners s = (false, false, false) → requests s = [] →
    phase s
| Starting s r :
    alerted s = true → connecting s = false → geminiClient s = None →
    listeners s = (false, false, false) →
    requests s = [r] → started_request r false →
    phase s
| Connecting s r :
    alerted s = true → connecting s = true → geminiClient s = None →
    listeners s = (false, false, false) →
    requests s = [r] → started_request r true →
    phase s
| SetupFailed s pre r :
    alerted s = true → connecting s = false → geminiClient s = None →
    listeners s = (false, false, false) →
    requests s = pre ++ [r] → error_request r →
    (pre = [] ∨ ∃ r0, pre = [r0] ∧ started_request r0 true) →
    phase s
| Live s r rest :
    alerted s = true → connecting s = false → is_Some (geminiClient s) →
    listeners s = (true, true, true) →
    requests s = r :: rest → started_request r true →
    Forall listener_request rest →
    phase s.

(** The exception, if any, that the payload raises before [callData] is
    assigned: its message and stack. *)
Definition setup_exception (cdt : custom_data) : option (jsval * jsval) :=
  match cdt with
  | ParseThrows m st | ParsedNull m st => Some (m, st)
  | ParsedObject _ => None
  end.

(** The one line [sendWebhook] logs when its request settles. *)
Definition settlement_line (data : webhook) (o : http_outcome) : log_line :=
  match o with
  | Responded _ => LogWebhookSent (field "type" data)
  | Rejected m => LogWebhookFailed m
  end.

(** The same event, had its POST been answered with status 200. *)
Definition forget_outcome (e : event) : event :=
  match e with
  | HttpSettled i _ => HttpSettled i (Responded 200)
  | _ => e
  end.

(** Inputs used in examples. *)
Definition lead (id : string) : lead_data :=
  {| ld_call_id := JStr id; ld_lead_id := JNum 7; ld_name := JStr "Dana";
     ld_type := JStr "drop-off"; ld_phone := JStr "+972500000000";
     ld_drop_stage := JStr "kyc"; ld_last_active := JUndefined |}.

Definition save (id : string) (disposition : string) (score : Z) : function_call :=
  {| fc_name := JStr "save_call_result"; fc_id := JStr id;
     fc_parameters :=
       Some {| tp_disposition := JStr disposition; tp_cx_score := JNum score;
               tp_summary := JStr "..." |} |}.

End Scenario.

(** ** The delivery history, as the reconciler reflects it *)

Module History.
Import Dashboard.

(** The delivery is a [call_ended] for this identifier. *)
Definition ends (id : jsval) (e : browser * message) : Prop :=
  msg_type (snd e) = JStr "call_ended" ∧ msg_call_id (snd e) = id.

#[global] Instance ends_dec id e : Decision (ends id e).
Proof. unfold ends. apply _. Defined.

Definition ended_in (evs : list (browser * message)) (id : jsval) : Prop :=
  Exists (ends id) evs.

#[global] Instance ended_in_dec evs id : Decision (ended_in evs id).
Proof. unfold ended_in. apply _. Defined.

(** The entries of the [call_started] deliveries that no later
    [call_ended] delivery names, in delivery order. *)
Fixpoint surviving (evs : list (browser * message)) : list active_call :=
  match evs with
  | [] => []
  | e :: rest =>
      if decide (msg_type (snd e) = JStr "call_started" ∧
                 ¬ ended_in rest (msg_call_id (snd e)))
      then new_active_call (snd e) :: surviving rest
      else surviving rest
  end.

(** The notifications of the [call_result] deliveries that found the
    permission granted, in delivery order. *)
Definition notified (evs : list (browser * message)) : list notification :=
  (λ e, {| nt_disposition := msg_disposition (snd e);
           nt_cx_score := msg_cx_score (snd e) |})
    <$> filter (λ e, msg_type (snd e) = JStr "call_result" ∧
                     permission_granted (fst e) = true) evs.


End History.

(** ** The dashboard page ([pages/Dashboard.jsx]): the active-calls card

    The page receives [activeCalls] as a prop.  While its own data is
    loading it returns a placeholder only.  The statistics cards and the
    list of recent calls, which format numbers and dates, are left out.

    [render] is the element tree the component function returns, with the
    [key] of every row.  How React turns successive trees into what is on
    screen is not modelled: it matches rows by key, which shows each tree
    as returned when the keys of its rows are pairwise distinct, and may
    keep a stale row when they are not. *)

Module Page.
Import Dashboard.









End Page.

(** ** The connection the hook keeps

    [connect] runs on mount and from the reconnection timer only, and a
    timer is armed by [onclose] only; [link] names the shapes this leaves.
    [Lingering] is the window between the start of the closing handshake
    and the [close] event: the hook has not been told, [isConnected] is
    still set. *)

Module Link.
Import Socket.

Definition alive (r : ready_state) : Prop := r = CONNECTING ∨ r = OPEN.

#[global] Instance alive_dec r : Decision (alive r).
Proof. unfold alive. apply _. Defined.

Definition pending (tm : timer) : Prop := status tm = Pending.

#[global] Instance pending_dec tm : Decision (pending tm).
Proof. unfold pending. apply _. Defined.

Definition closed (r : ready_state) : Prop := r = CLOSED.
Definition over (tm : timer) : Prop := status tm ≠ Pending.

Inductive link : hook_state → Prop :=
| Stuck s :
    isCleanedUp s = false → isConnected s = false →
    Forall closed (sockets s) → Forall over (timers s) →
    link s
| Waiting s old d :
    isCleanedUp s = false → isConnected s = false →
    Forall closed (sockets s) →
    timers s = old ++ [{| delay := d; status := Pending |}] → Forall over old →
    reconnectTimeoutRef s = Some (length old) →
    link s
| Dialling s old :
    isCleanedUp s = false → isConnected s = false →
    sockets s = old ++ [CONNECTING] → Forall closed old →
    wsRef s = Some (length old) → Forall over (timers s) →
    link s
| Opened s old :
    isCleanedUp s = false → isConnected s = true →
    sockets s = old ++ [OPEN] → Forall closed old →
    wsRef s = Some (length old) → Forall over (timers s) →
    link s
| Gone s :
    isCleanedUp s = true →
    Forall (λ r, ¬ alive r) (sockets s) → Forall over (timers s) →
    link s
| Lingering s old :
    isCleanedUp s = false → isConnected s = true →
    sockets s = old ++ [CLOSING] → Forall closed old →
    wsRef s = Some (length old) → Forall over (timers s) →
    link s.

(** No socket is connecting or open and no timer is pending. *)
Definition quiet (s : hook_state) : Prop :=
  Forall over (timers s) ∧
  (isCleanedUp s = false ∧ isConnected s = false ∧ Forall closed (sockets s) ∨
   isCleanedUp s = true ∧ Forall (λ r, ¬ alive r) (sockets s)).

(** The socket can hand a message to the hook's handler. *)
Definition accepts (s : hook_state) (i : nat) : bool :=
  negb (isCleanedUp s) && bool_decide (sockets s !! i = Some OPEN).

(** The messages a run hands to [onMessage] without it throwing, with what
    the browser showed at each. *)
Fixpoint deliveries (evs : list event) (s : hook_state)
    : list (Dashboard.browser * Dashboard.message) :=
  match evs with
  | [] => []
  | e :: rest =>
      match e with
      | SocketMessage i b (ParsedObject m) =>
          if accepts s i then [(b, m)] else []
      | _ => []
      end ++ deliveries rest (step s e)
  end.

(** The ping ticks of a run that find the hook connected and mounted. *)
Fixpoint pings (evs : list event) (s : hook_state) : nat :=
  match evs with
  | [] => 0
  | e :: rest =>
      match e with
      | PingTick => if isConnected s && negb (isCleanedUp s) then 1 else 0
      | _ => 0
      end + pings rest (step s e)
  end.

(** [wsRef.current] has this [readyState]. *)
Definition current_is (r : ready_state) (s : hook_state) : bool :=
  match wsRef s with
  | Some i => bool_decide (sockets s !! i = Some r)
  | None => false
  end.

(** The ping ticks of a run that find the hook connected and mounted but
    its current socket already closing: [sendMessage] takes its [else]
    branch. *)
Fixpoint dropped (evs : list event) (s : hook_state) : nat :=
  match evs with
  | [] => 0
  | e :: rest =>
      match e with
      | PingTick =>
          if isConnected s && negb (isCleanedUp s) && current_is CLOSING s
          then 1 else 0
      | _ => 0
      end + dropped rest (step s e)
  end.

End Link.

(** ** A session's record: what its requests, acknowledgements and timers
       say about it *)

Module Session.
Import Scenario.

Definition is_CallAlerting (e : event) : Prop :=
  match e with
  | CallAlerting _ _ _ => True
  | _ => False
  end.

#[global] Instance is_CallAlerting_dec e : Decision (is_CallAlerting e).
Proof. destruct e; apply _. Defined.

(** The platform raises [CallAlerting] at most once in the session. *)
Definition single_call (evs : list event) : Prop :=
  length (filter is_CallAlerting evs) ≤ 1.


(** Each event type is awaited by its own continuation. *)
Definition typed_request (r : request) : Prop :=
  (has_type "call_started" r ∧ req_cont r = ResumeSetup) ∨
  (has_type "call_result" r ∧ ∃ id p, req_cont r = ResumeToolCall id p) ∨
  (has_type "call_ended" r ∧
   (req_cont r = ResumeDisconnected ∨ req_cont r = ResumeFailed)) ∨
  (has_type "call_error" r ∧ req_cont r = ResumeCatch).

(** The POST of a terminal event has settled. *)
Definition terminal_settled (r : request) : Prop :=
  req_settled r = true ∧ (has_type "call_ended" r ∨ has_type "call_error" r).

#[global] Instance has_type_dec ty r : Decision (has_type ty r).
Proof. unfold has_type. apply _. Defined.

#[global] Instance terminal_settled_dec r : Decision (terminal_settled r).
Proof. unfold terminal_settled. apply _. Defined.

Definition result_settled (r : request) : Prop :=
  req_settled r = true ∧ has_type "call_result" r.

#[global] Instance result_settled_dec r : Decision (result_settled r).
Proof. unfold result_settled. apply _. Defined.

Definition error_settled (r : request) : Prop :=
  req_settled r = true ∧ has_type "call_error" r.

#[global] Instance error_settled_dec r : Decision (error_settled r).
Proof. unfold error_settled. apply _. Defined.

Definition expired (tm : timer) : Prop := fired tm = true.

#[global] Instance expired_dec tm : Decision (expired tm).
Proof. unfold expired. apply _. Defined.

(** What a session has on record: whether it has ended, its requests, its
    acknowledgements to Gemini, its timers and its hang-ups. *)
Definition ledger (s : state)
    : bool * list request * list tool_response * list timer * nat :=
  (terminated s, requests s, toolResponses s, timers s, hangups s).

(** The ways one event can move the record. *)
Inductive advance (c : campaign) (s s' : state) : Prop :=
| Stays :
    ledger s' = ledger s → advance c s s'
| Issues r :
    req_settled r = false →
    ledger s' = (terminated s, requests s ++ [r], toolResponses s, timers s,
                 hangups s) →
    advance c s s'
| SettlesSetup i r :
    requests s !! i = Some r → req_settled r = false →
    req_cont r = ResumeSetup →
    ledger s' = (terminated s, alter settle i (requests s), toolResponses s,
                 timers s, hangups s) →
    advance c s s'
| SettlesResult i r id p :
    requests s !! i = Some r → req_settled r = false →
    req_cont r = ResumeToolCall id p →
    ledger s' = (terminated s, alter settle i (requests s),
                 toolResponses s ++
                   [{| tr_id := id; tr_success := true; tr_message := c |}],
                 timers s ++ [{| delay := 4000; fired := false |}],
                 hangups s) →
    advance c s s'
| SettlesEnded i r :
    requests s !! i = Some r → req_settled r = false →
    req_cont r = ResumeDisconnected ∨ req_cont r = ResumeFailed →
    ledger s' = (true, alter settle i (requests s), toolResponses s, timers s,
                 hangups s) →
    advance c s s'
| SettlesError i r :
    requests s !! i = Some r → req_settled r = false →
    req_cont r = ResumeCatch →
    ledger s' = (true, alter settle i (requests s), toolResponses s, timers s,
                 S (hangups s)) →
    advance c s s'
| Expires t tm :
    timers s !! t = Some tm → fired tm = false →
    ledger s' = (terminated s, requests s, toolResponses s,
                 alter expire t (timers s), S (hangups s)) →
    advance c s s'.

(** The record adds up: the session has ended exactly when a terminal
    POST has settled; acknowledgements and timers are as many as the
    [call_result] POSTs settled; hang-ups are as many as the timers expired
    and the [call_error] POSTs settled. *)
Definition consistent (s : state) : Prop :=
  (terminated s = true ↔ 0 < length (filter terminal_settled (requests s))) ∧
  length (toolResponses s) = length (filter result_settled (requests s)) ∧
  length (timers s) = length (filter result_settled (requests s)) ∧
  Forall (λ tr, tr_success tr = true) (toolResponses s) ∧
  hangups s = length (filter expired (timers s)) +
              length (filter error_settled (requests s)).

(** The [TOOLS] declaration: the [disposition] enum of each scenario file
    and the bounds of [cx_score]. *)
Definition disposition_enum (c : campaign) : list string :=
  match c with
  | RegistrationRecovery =>
      ["COMPLETED_REGISTRATION"; "SCHEDULED_COMPLETION"; "NEEDS_HELP";
       "NOT_INTERESTED"; "WRONG_NUMBER"]
  | DormantReactivation =>
      ["REACTIVATED"; "REMINDED_VALUE"; "NO_TRAVEL_PLANS";
       "FOUND_ALTERNATIVE"; "NOT_INTERESTED"]
  end.

Definition cx_score_minimum : Z := 1.
Definition cx_score_maximum : Z := 10.

(** The parameters are what the declaration asks for. *)
Definition conforms (c : campaign) (p : tool_params) : Prop :=
  (∃ d, tp_disposition p = JStr d ∧ d ∈ disposition_enum c) ∧
  (∃ n, tp_cx_score p = JNum n ∧ (cx_score_minimum ≤ n ≤ cx_score_maximum)%Z) ∧
  (∃ t, tp_summary p = JStr t).

End Session.

(** * Sample runs *)

Example dashboard_duplicate_start_then_error :
  Dashboard.active_ids
    (Dashboard.process
       [(Dashboard.at_ "t0", Dashboard.lifecycle "call_started" "c1");
        (Dashboard.at_ "t1", Dashboard.lifecycle "call_started" "c1");
        (Dashboard.at_ "t2", Dashboard.lifecycle "call_error" "c1")]
       Dashboard.initial) = [JStr "c1"; JStr "c1"].
Proof. vm_compute. reflexivity. Qed.

Example socket_reconnect_cycle :
  let s := Socket.run [Socket.SocketOpen 0; Socket.SocketClose 0;
                       Socket.TimerFires 0 false; Socket.SocketOpen 1]
                      (Socket.mounted false) in
  (Socket.sockets s, Socket.timers s, Socket.isConnected s, Socket.wsRef s) =
  ([Socket.CLOSED; Socket.OPEN], [Socket.Timer 3000 Socket.Fired], true, Some 1).
Proof. vm_compute. reflexivity. Qed.

Example scenario_completed_call :
  let s := fst (Scenario.run Scenario.RegistrationRecovery
             [Scenario.CallAlerting (Scenario.ParsedObject (Scenario.lead "c1")) (JStr "vox") "t0";
              Scenario.HttpSettled 0 (Scenario.Responded 200);
              Scenario.GeminiSettled Scenario.Connected;
              Scenario.ToolCall (Scenario.save "f1" "COMPLETED_REGISTRATION" 9);
              Scenario.HttpSettled 1 (Scenario.Rejected (JStr "timeout"));
              Scenario.TimerFires 0;
              Scenario.Disconnected;
              Scenario.HttpSettled 2 (Scenario.Responded 500)]
             Scenario.initial) in
  (Scenario.emitted_types s, Scenario.hangups s, Scenario.terminated s,
   Scenario.timers s) =
  ([JStr "call_started"; JStr "call_result"; JStr "call_ended"], 1, true,
   [Scenario.Timer 4000 true]).
Proof. vm_compute. reflexivity. Qed.

(** * Properties of the dashboard reconciler *)

Section DashboardFacts.
Import Dashboard.

Implicit Types (b : browser) (m : message) (st : app_state).

Lemma process_snoc evs e st :
  process (evs ++ [e]) st = handleWebSocketMessage (fst e) (snd e) (process evs st).
Proof. unfold process. by rewrite foldl_snoc. Qed.

(** The three branches, each under its guard. *)
Lemma handle_call_started b m st :
  msg_type m = JStr "call_started" →
  handleWebSocketMessage b m st =
    setActiveCalls (λ prev, prev ++ [new_active_call m]) st.
Proof. intros Hty. unfold handleWebSocketMessage. by rewrite Hty. Qed.

Lemma handle_call_ended b m st :
  msg_type m = JStr "call_ended" →
  handleWebSocketMessage b m st =
    setActiveCalls (filter (λ call, ac_call_id call ≠ msg_call_id m)) st.
Proof. intros Hty. unfold handleWebSocketMessage. by rewrite Hty. Qed.

Lemma handle_call_result_recent b m st :
  msg_type m = JStr "call_result" →
  recentResults (handleWebSocketMessage b m st) =
    slice0 10 (new_recent_result b m :: recentResults st).
Proof.
  intros Hty. unfold handleWebSocketMessage. rewrite Hty. cbn.
  by destruct (permission_granted b).
Qed.

Lemma handle_other_recent b m st :
  msg_type m ≠ JStr "call_result" →
  recentResults (handleWebSocketMessage b m st) = recentResults st.
Proof.
  intros Hty. unfold handleWebSocketMessage.
  repeat case_decide; try done.
Qed.

Lemma handle_unhandled_type b m st :
  msg_type m ≠ JStr "call_started" →
  msg_type m ≠ JStr "call_ended" →
  activeCalls (handleWebSocketMessage b m st) = activeCalls st.
Proof.
  intros H1 H2. unfold handleWebSocketMessage.
  repeat case_decide; try done. by destruct (permission_granted b).
Qed.

(** Filtering out an identifier that no entry carries changes nothing. *)
Lemma filter_absent_id (id : jsval) (calls : list active_call) :
  id ∉ (ac_call_id <$> calls) →
  filter (λ call, ac_call_id call ≠ id) calls = calls.
Proof.
  induction calls as [|c calls IH]; [done|].
  rewrite fmap_cons, not_elem_of_cons. intros [Hne Hrest].
  rewrite filter_cons_True by congruence. by rewrite IH.
Qed.

Lemma filter_removes_id (id : jsval) (calls : list active_call) :
  id ∉ (ac_call_id <$> filter (λ call, ac_call_id call ≠ id) calls).
Proof.
  rewrite list_elem_of_fmap. intros (c & Hid & Hc).
  apply list_elem_of_filter in Hc as [Hne _]. congruence.
Qed.

Lemma recentResults_process evs :
  recentResults (process evs initial) = take 10 (reverse (results_of evs)).
Proof.
  induction evs as [|e evs IH] using rev_ind; [done|].
  rewrite process_snoc. unfold results_of in *. rewrite filter_app.
  destruct (decide (msg_type (snd e) = JStr "call_result")) as [Hty|Hty].
  - rewrite handle_call_result_recent by done.
    rewrite IH. rewrite (filter_cons_True _ e []).
    2:{ unfold is_call_result. by rewrite bool_decide_spec. }
    rewrite filter_nil, fmap_app. cbn [fmap list_fmap].
    rewrite reverse_snoc. unfold slice0. cbn [take].
    rewrite take_take. reflexivity.
  - rewrite handle_other_recent by done.
    rewrite IH. rewrite (filter_cons_False _ e []).
    2:{ unfold is_call_result. by rewrite bool_decide_spec. }
    by rewrite filter_nil, app_nil_r.
Qed.

Lemma recentResults_le_10 evs : length (recentResults (process evs initial)) ≤ 10.
Proof. rewrite recentResults_process, length_take. lia. Qed.

Lemma take_9_of_10 {A} (l : list A) : length l = 10 → take 9 l = removelast l.
Proof. intros Hl. rewrite removelast_firstn_len, Hl. reflexivity. Qed.

(** A [call_ended] delivery clears its identifier, whatever the state. *)
Lemma call_ended_clears_id b m st :
  msg_type m = JStr "call_ended" →
  msg_call_id m ∉ active_ids (handleWebSocketMessage b m st).
Proof.
  intros Hty. rewrite handle_call_ended by done.
  unfold active_ids, setActiveCalls; cbn. apply filter_removes_id.
Qed.

(** A [call_error] delivery matches no branch of the handler. *)
Lemma call_error_ignored b m st :
  msg_type m = JStr "call_error" → handleWebSocketMessage b m st = st.
Proof. intros Hty. unfold handleWebSocketMessage. by rewrite Hty. Qed.

(** C1 (the code at the failing input).  After [call_started] and then
    [call_error] for the same [call_id], the entry is still in
    [activeCalls]: the handler has no [call_error] branch, unlike the
    [call_ended] branch, which removes it (see [call_ended_clears_id]). *)
Theorem call_error_leaves_active_entry :
  active_ids
    (process [(at_ "t0", lifecycle "call_started" "c1");
              (at_ "t1", lifecycle "call_error" "c1")] initial)
  = [JStr "c1"].
Proof. vm_compute. reflexivity. Qed.

(** C2 (as stated, refuted).  A second [call_started] for a [call_id]
    already present changes [activeCalls]: it adds a second entry. *)
Lemma duplicate_call_started_adds_entry :
  let st := process [(at_ "t0", lifecycle "call_started" "c1")] initial in
  let st' := handleWebSocketMessage (at_ "t1") (lifecycle "call_started" "c1") st in
  JStr "c1" ∈ active_ids st ∧
  activeCalls st' ≠ activeCalls st ∧
  active_ids st' = [JStr "c1"; JStr "c1"].
Proof.
  vm_compute. split; [apply list_elem_of_here|]. split; [discriminate|reflexivity].
Qed.

(** C2 (amended).  Removal is idempotent: a [call_ended] or [call_error]
    for a [call_id] that is absent leaves [activeCalls] unchanged, and a
    repeated [call_ended] changes nothing further.  Addition is not: every
    [call_started] appends one entry, present or not. *)
Theorem activeCalls_remove_idempotent_add_appends b m st :
  (msg_type m = JStr "call_ended" ∨ msg_type m = JStr "call_error" →
   msg_call_id m ∉ active_ids st →
   activeCalls (handleWebSocketMessage b m st) = activeCalls st) ∧
  (msg_type m = JStr "call_ended" →
   activeCalls (handleWebSocketMessage b m (handleWebSocketMessage b m st)) =
   activeCalls (handleWebSocketMessage b m st)) ∧
  (msg_type m = JStr "call_started" →
   activeCalls (handleWebSocketMessage b m st) =
   activeCalls st ++ [new_active_call m]).
Proof.
  split; [|split].
  - intros [Hty|Hty] Habs.
    + rewrite handle_call_ended by done. cbn. by apply filter_absent_id.
    + by rewrite call_error_ignored.
  - intros Hty.
    rewrite (handle_call_ended b m (handleWebSocketMessage b m st)) by done.
    cbn. apply filter_absent_id. by apply call_ended_clears_id.
  - intros Hty. by rewrite handle_call_started.
Qed.

Lemma activeCalls_remove_idempotent_add_appends_witness :
  let st := process [(at_ "t0", lifecycle "call_started" "c1")] initial in
  activeCalls (handleWebSocketMessage (at_ "t1") (lifecycle "call_ended" "c2") st)
    = activeCalls st ∧
  activeCalls (handleWebSocketMessage (at_ "t1") (lifecycle "call_error" "c2") st)
    = activeCalls st ∧
  activeCalls (handleWebSocketMessage (at_ "t1") (lifecycle "call_ended" "c1")
                 (handleWebSocketMessage (at_ "t1") (lifecycle "call_ended" "c1") st))
    = activeCalls (handleWebSocketMessage (at_ "t1") (lifecycle "call_ended" "c1") st) ∧
  activeCalls (handleWebSocketMessage (at_ "t1") (lifecycle "call_started" "c1") st)
    = activeCalls st ++ [new_active_call (lifecycle "call_started" "c1")].
Proof.
  intros st.
  assert (Habs : JStr "c2" ∉ active_ids st).
  { vm_compute. intros H. apply list_elem_of_In in H. destruct H as [H|[]].
    discriminate H. }
  split; [|split; [|split]].
  - destruct (activeCalls_remove_idempotent_add_appends
                (at_ "t1") (lifecycle "call_ended" "c2") st) as (Hrem & _ & _).
    apply Hrem; [left; reflexivity | exact Habs].
  - destruct (activeCalls_remove_idempotent_add_appends
                (at_ "t1") (lifecycle "call_error" "c2") st) as (Hrem & _ & _).
    apply Hrem; [right; reflexivity | exact Habs].
  - destruct (activeCalls_remove_idempotent_add_appends
                (at_ "t1") (lifecycle "call_ended" "c1") st) as (_ & Hrep & _).
    apply Hrep; reflexivity.
  - destruct (activeCalls_remove_idempotent_add_appends
                (at_ "t1") (lifecycle "call_started" "c1") st) as (_ & _ & Hadd).
    apply Hadd; reflexivity.
Defined.

(** C8.  [recentResults] never holds more than 10 entries and lists the
    [call_result] deliveries newest first; each further [call_result]
    puts its entry in front and keeps the 9 newest of the others, so a
    full buffer loses its oldest entry. *)
Theorem recentResults_bounded_newest_first evs b m :
  msg_type m = JStr "call_result" →
  let st := process evs initial in
  let st' := handleWebSocketMessage b m st in
  length (recentResults st) ≤ 10 ∧
  recentResults st = take 10 (reverse (results_of evs)) ∧
  recentResults st' = new_recent_result b m :: take 9 (recentResults st) ∧
  length (recentResults st') ≤ 10 ∧
  (length (recentResults st) < 10 →
   recentResults st' = new_recent_result b m :: recentResults st) ∧
  (length (recentResults st) = 10 →
   recentResults st' = new_recent_result b m :: removelast (recentResults st)).
Proof.
  intros Hty st st'.
  assert (Hst' : recentResults st' = new_recent_result b m :: take 9 (recentResults st)).
  { unfold st'. by rewrite handle_call_result_recent. }
  split; [apply recentResults_le_10|].
  split; [apply recentResults_process|].
  split; [exact Hst'|].
  split.
  { rewrite Hst'. cbn [length]. rewrite length_take. lia. }
  split.
  - intros Hlt. rewrite Hst'. by rewrite take_ge by lia.
  - intros Hfull. rewrite Hst'. by rewrite take_9_of_10.
Qed.

Lemma recentResults_bounded_newest_first_witness :
  let evs := replicate 10 (at_ "t0", result_msg "c0" "NOT_INTERESTED" 3) in
  let m := result_msg "c1" "COMPLETED_REGISTRATION" 9 in
  msg_type m = JStr "call_result" ∧
  length (recentResults (process evs initial)) = 10 ∧
  recentResults (handleWebSocketMessage (at_ "t1") m (process evs initial)) =
    new_recent_result (at_ "t1") m :: removelast (recentResults (process evs initial)).
Proof.
  intros evs m.
  split; [reflexivity|]. split; [reflexivity|].
  apply (recentResults_bounded_newest_first evs (at_ "t1") m); reflexivity.
Defined.

End DashboardFacts.

(** * Properties of the reconnecting socket hook *)

Section SocketFacts.
Import Socket.

Implicit Types (s : hook_state) (e : event).

Lemma run_snoc evs e s : run (evs ++ [e]) s = step (run evs s) e.
Proof. unfold run. by rewrite foldl_snoc. Qed.

(** An unexpected close: the socket is marked closed, the flag drops and
    one timer of 3000 ms is armed. *)
Lemma step_close s i rs :
  isCleanedUp s = false → sockets s !! i = Some rs → rs ≠ CLOSED →
  step s (SocketClose i) =
    {| isConnected := false; lastMessage := lastMessage s; wsRef := wsRef s;
       reconnectTimeoutRef := Some (length (timers s));
       isCleanedUp := false;
       sockets := <[i := CLOSED]> (sockets s);
       timers := timers s ++ [{| delay := 3000; status := Pending |}];
       sent := sent s; app := app s |}.
Proof.
  intros Hc Hi Hrs. destruct s; cbn in *; subst.
  rewrite Hi. by destruct rs.
Qed.

(** The armed timer expires: [connect] constructs a new socket. *)
Lemma step_timer_connects s t d :
  isCleanedUp s = false → timers s !! t = Some {| delay := d; status := Pending |} →
  step s (TimerFires t false) =
    {| isConnected := isConnected s; lastMessage := lastMessage s;
       wsRef := Some (length (sockets s));
       reconnectTimeoutRef := reconnectTimeoutRef s;
       isCleanedUp := false;
       sockets := sockets s ++ [CONNECTING];
       timers := set_timer_status t Fired (timers s);
       sent := sent s; app := app s |}.
Proof.
  intros Hc Ht. destruct s; cbn in *; subst. by rewrite Ht.
Qed.

(** The new socket opens: the hook only raises [isConnected]. *)
Lemma step_open s i :
  isCleanedUp s = false → sockets s !! i = Some CONNECTING →
  step s (SocketOpen i) =
    {| isConnected := true; lastMessage := lastMessage s; wsRef := wsRef s;
       reconnectTimeoutRef := reconnectTimeoutRef s;
       isCleanedUp := false;
       sockets := <[i := OPEN]> (sockets s);
       timers := timers s; sent := sent s; app := app s |}.
Proof.
  intros Hc Hi. destruct s; cbn in *; subst. by rewrite Hi.
Qed.

(** Every timer the hook ever arms has the same delay. *)
Lemma step_fixed_delay s e :
  Forall fixed_delay (timers s) → Forall fixed_delay (timers (step s e)).
Proof.
  intros Hall.
  assert (Halter : ∀ t st, Forall fixed_delay (set_timer_status t st (timers s))).
  { intros t st. apply Forall_alter; [done|]. by intros [d ?] _ Hd. }
  destruct e as [i|i b d|i|i|t ct| | |i]; cbn.
  - destruct (sockets s !! i) as [[]|]; try done.
    unfold onopen; cbn. by destruct (isCleanedUp s).
  - destruct (sockets s !! i) as [[]|]; try done.
    unfold onmessage. destruct (isCleanedUp s); [done|]. by destruct d.
  - by destruct (sockets s !! i).
  - destruct (sockets s !! i) as [[]|]; try done;
      unfold onclose; cbn; (destruct (isCleanedUp s); cbn; [done|]);
      apply Forall_app; split; try done; by apply Forall_singleton.
  - destruct (timers s !! t) as [[d []]|]; try done.
    unfold reconnect_callback, connect; cbn.
    destruct (isCleanedUp s); cbn; [apply Halter|].
    destruct ct; cbn; apply Halter.
  - destruct (isConnected s && negb (isCleanedUp s)); [|done].
    unfold sendMessage. destruct (wsRef s); [|done]. by case_decide.
  - destruct (isCleanedUp s); [done|]. unfold cleanup; cbn.
    assert (Hclr : ∀ s1, Forall fixed_delay (timers s1) →
              ∀ t, Forall fixed_delay (timers (clearTimeout t s1))).
    { intros s1 H1 t. unfold clearTimeout.
      destruct (timers s1 !! t) as [[d []]|]; try done. cbn.
      apply Forall_alter; [done|]. by intros [? ?] _ ?. }
    assert (Hcls : ∀ s1, Forall fixed_delay (timers s1) →
              ∀ i, Forall fixed_delay (timers (ws_close i s1))).
    { intros s1 H1 i. unfold ws_close. by destruct (sockets s1 !! i) as [[]|]. }
    destruct (reconnectTimeoutRef s) as [t|]; cbn.
    + set (s1 := clearTimeout t _).
      assert (H1 : Forall fixed_delay (timers s1)) by (apply Hclr; done).
      destruct (wsRef s1); [by apply Hcls | done].
    + destruct (wsRef s); [by apply Hcls | done].
  - by destruct (sockets s !! i) as [[]|].
Qed.

Lemma run_fixed_delay evs ct :
  Forall fixed_delay (timers (run evs (mounted ct))).
Proof.
  induction evs as [|e evs IH] using rev_ind.
  - destruct ct; constructor.
  - rewrite run_snoc. by apply step_fixed_delay.
Qed.

(** C9.  In any state the hook can reach, while mounted, the close of a
    socket arms one timer of 3000 ms; when it expires [connect]
    constructs a new socket; once that socket opens the hook is connected
    again.  Every timer ever armed has that same delay, and the whole
    cycle neither touches the reconciler's state nor sends anything: no
    message is delivered or requested on reconnection. *)
Theorem reconnect_after_fixed_delay evs ct i rs :
  let s := run evs (mounted ct) in
  isCleanedUp s = false → sockets s !! i = Some rs → rs ≠ CLOSED →
  let s1 := step s (SocketClose i) in
  let s2 := step s1 (TimerFires (length (timers s)) false) in
  let s3 := step s2 (SocketOpen (length (sockets s))) in
  timers s1 = timers s ++ [{| delay := 3000; status := Pending |}] ∧
  isConnected s1 = false ∧
  sockets s2 = <[i := CLOSED]> (sockets s) ++ [CONNECTING] ∧
  wsRef s2 = Some (length (sockets s)) ∧
  isConnected s3 = true ∧
  Forall fixed_delay (timers s3) ∧
  (app s1 = app s ∧ app s2 = app s ∧ app s3 = app s) ∧
  (sent s1 = sent s ∧ sent s2 = sent s ∧ sent s3 = sent s).
Proof.
  intros s Hc Hi Hrs s1 s2 s3.
  assert (E1 := step_close s i rs Hc Hi Hrs). fold s1 in E1.
  assert (Hc1 : isCleanedUp s1 = false) by (by rewrite E1).
  assert (Ht1 : timers s1 !! length (timers s)
                = Some {| delay := 3000; status := Pending |}).
  { rewrite E1. cbn. by apply list_lookup_middle. }
  assert (E2 := step_timer_connects s1 _ _ Hc1 Ht1). fold s2 in E2.
  assert (Hc2 : isCleanedUp s2 = false) by (by rewrite E2).
  assert (Hi2 : sockets s2 !! length (sockets s) = Some CONNECTING).
  { rewrite E2, E1. cbn. apply list_lookup_middle. by rewrite length_insert. }
  assert (E3 := step_open s2 _ Hc2 Hi2). fold s3 in E3.
  assert (Hall : Forall fixed_delay (timers s3)).
  { unfold s3, s2, s1. do 3 apply step_fixed_delay. apply run_fixed_delay. }
  clearbody s1 s2 s3. subst s1. cbn in E2. subst s2. cbn in E3. subst s3.
  cbn in *. rewrite length_insert. done.
Qed.

Lemma reconnect_after_fixed_delay_witness :
  let s := run [SocketOpen 0;
                SocketMessage 0 (Dashboard.at_ "t0")
                  (ParsedObject (Dashboard.lifecycle "call_started" "c1"))]
               (mounted false) in
  let s3 := run [SocketClose 0; TimerFires 0 false; SocketOpen 1] s in
  (isCleanedUp s = false ∧ sockets s !! 0 = Some OPEN ∧ OPEN ≠ CLOSED) ∧
  isConnected s3 = true ∧ app s3 = app s.
Proof.
  intros s s3. split; [by vm_compute|].
  destruct (reconnect_after_fixed_delay
              [SocketOpen 0;
               SocketMessage 0 (Dashboard.at_ "t0")
                 (ParsedObject (Dashboard.lifecycle "call_started" "c1"))]
              false 0 OPEN) as (_ & _ & _ & _ & Hconn & _ & (_ & _ & Happ) & _);
    [reflexivity | reflexivity | discriminate |].
  split; [exact Hconn | exact Happ].
Defined.

End SocketFacts.

(** * Properties of the call-engine scenario *)

Section ScenarioFacts.
Import Scenario.

Implicit Types (c : campaign) (s : state) (e : event) (o : http_outcome).

Lemma alter_snoc {A} (f : A → A) (l : list A) (x : A) :
  alter f (length l) (l ++ [x]) = l ++ [f x].
Proof. induction l as [|y l IH]; cbn; [done|]. by rewrite IH. Qed.

Lemma step_terminated c s e : terminated s = true → step c s e = (s, []).
Proof. intros H. unfold step, handler. by rewrite H. Qed.

(** The three listeners and the alerting handler, up to their [await]. *)
Lemma step_ToolCall_save c s fc p :
  terminated s = false → toolCallListener s = true →
  fc_name fc = JStr "save_call_result" → fc_parameters fc = Some p →
  step c s (ToolCall fc) =
    (set_requests
       (requests s ++
          [{| req_data := call_result_event (callData s) p;
              req_cont := ResumeToolCall (fc_id fc) p;
              req_settled := false |}]) s,
     [LogFunctionCalled; LogFunctionName (fc_name fc);
      LogFunctionParameters (fc_parameters fc); LogSavingResult]).
Proof.
  intros Ht Hl Hn Hp. unfold step, handler. rewrite Ht, Hl.
  unfold on_ToolCall. rewrite Hn, Hp. reflexivity.
Qed.

Lemma step_Disconnected c s :
  terminated s = false → disconnectedListener s = true →
  step c s Disconnected =
    (set_requests
       (requests s ++
          [{| req_data := call_ended_event (callData s);
              req_cont := ResumeDisconnected; req_settled := false |}]) s,
     [LogCallDisconnected]).
Proof.
  intros Ht Hl. unfold step, handler. by rewrite Ht, Hl.
Qed.

Lemma step_Failed c s :
  terminated s = false → failedListener s = true →
  step c s Failed =
    (set_requests
       (requests s ++
          [{| req_data := call_ended_event (callData s);
              req_cont := ResumeFailed; req_settled := false |}]) s,
     [LogCallFailed]).
Proof.
  intros Ht Hl. unfold step, handler. by rewrite Ht, Hl.
Qed.

(** To settle a pending request is to mark it, write the one log line of
    [sendWebhook] and run the caller's continuation. *)
Lemma step_HttpSettled_pending c s i r o :
  terminated s = false → requests s !! i = Some r → req_settled r = false →
  step c s (HttpSettled i o) =
    exec (mark_settled i;; sendWebhook_settled (req_data r) o;;
          resume c (req_cont r)) s.
Proof.
  intros Ht Hr Hs. unfold step, handler. by rewrite Ht, Hr, Hs.
Qed.

Lemma run_cons_fst c e evs s :
  fst (run c (e :: evs) s) = fst (run c evs (fst (step c s e))).
Proof.
  cbn [run]. destruct (step c s e) as [s1 l1]. cbn.
  by destruct (run c evs s1).
Qed.

Lemma sendWebhook_settled_log data o s :
  sendWebhook_settled data o s = (tt, s, [settlement_line data o]).
Proof. by destruct o. Qed.

(** No continuation issues a request of its own. *)
Lemma resume_requests c k s :
  requests (fst (exec (resume c k) s)) = requests s.
Proof.
  destruct k, c; try reflexivity;
    unfold exec, resume, ended_resumed, close_geminiClient, mbind, Rt_bind, get;
    by destruct (geminiClient s).
Qed.

Lemma exec_settle c i r o s :
  exec (mark_settled i;; sendWebhook_settled (req_data r) o;;
        resume c (req_cont r)) s =
  let s1 := set_requests (alter settle i (requests s)) s in
  (fst (exec (resume c (req_cont r)) s1),
   settlement_line (req_data r) o :: snd (exec (resume c (req_cont r)) s1)).
Proof.
  unfold exec, mbind, Rt_bind, mark_settled, modify. cbn.
  rewrite sendWebhook_settled_log.
  by destruct (resume c (req_cont r) _) as [[[] s2] l2].
Qed.

Lemma emitted_mark_settled i s :
  emitted (set_requests (alter settle i (requests s)) s) = emitted s.
Proof.
  unfold emitted. cbn. rewrite (list_fmap_alter _ _ id).
  - clear. generalize (req_data <$> requests s). intros l. revert i.
    induction l as [|x l IH]; intros [|i]; cbn; try done. by rewrite IH.
  - by apply Forall_true.
Qed.

Lemma step_HttpSettled_emitted c s i o :
  emitted (fst (step c s (HttpSettled i o))) = emitted s.
Proof.
  destruct (terminated s) eqn:Ht; [by rewrite step_terminated|].
  destruct (requests s !! i) as [r|] eqn:Hr.
  2:{ unfold step, handler. by rewrite Ht, Hr. }
  destruct (req_settled r) eqn:Hs.
  { unfold step, handler. by rewrite Ht, Hr, Hs. }
  rewrite (step_HttpSettled_pending c s i r o) by done.
  rewrite exec_settle. cbn [fst].
  unfold emitted at 1. rewrite resume_requests. apply emitted_mark_settled.
Qed.

Lemma step_HttpSettled_outcome c s i o o' :
  fst (step c s (HttpSettled i o)) = fst (step c s (HttpSettled i o')).
Proof.
  destruct (terminated s) eqn:Ht; [by rewrite !step_terminated|].
  destruct (requests s !! i) as [r|] eqn:Hr.
  2:{ unfold step, handler. by rewrite Ht, Hr. }
  destruct (req_settled r) eqn:Hs.
  { unfold step, handler. by rewrite Ht, Hr, Hs. }
  rewrite !(step_HttpSettled_pending c s i r) by done.
  by rewrite !exec_settle.
Qed.

Lemma run_forget_outcome c evs s :
  fst (run c evs s) = fst (run c (forget_outcome <$> evs) s).
Proof.
  revert s. induction evs as [|e evs IH]; intros s; [done|].
  rewrite fmap_cons, !run_cons_fst, IH. f_equal. f_equal.
  destruct e; try reflexivity. apply step_HttpSettled_outcome.
Qed.

Lemma step_HttpSettled_status c s i code code' :
  step c s (HttpSettled i (Responded code))
  = step c s (HttpSettled i (Responded code')).
Proof.
  unfold step, handler. destruct (terminated s); [done|].
  destruct (requests s !! i) as [r|]; [|done]. by destruct (req_settled r).
Qed.

(** C7 (as stated, refuted).  A response outside 2xx is not logged as a
    failure.  [sendWebhook] never reads the status: a POST answered with
    500 leaves the very log and the very state of one answered with 200,
    and its line is the one of a delivery, "Webhook sent". *)
Lemma non_2xx_response_logged_as_sent :
  let s := fst (step RegistrationRecovery initial
                  (CallAlerting (ParsedObject (lead "c1")) (JStr "vox") "t0")) in
  step RegistrationRecovery s (HttpSettled 0 (Responded 500))
    = step RegistrationRecovery s (HttpSettled 0 (Responded 200)) ∧
  snd (step RegistrationRecovery s (HttpSettled 0 (Responded 500)))
    = [LogWebhookSent (JStr "call_started"); LogInitGemini] ∧
  ∀ m, LogWebhookFailed m
         ∉ snd (step RegistrationRecovery s (HttpSettled 0 (Responded 500))).
Proof.
  cbv zeta. split; [reflexivity|]. split; [reflexivity|].
  intros m Hin. vm_compute in Hin.
  apply elem_of_cons in Hin as [Hin|Hin]; [discriminate Hin|].
  apply list_elem_of_singleton in Hin. discriminate Hin.
Qed.

(** C7 (amended).  [sendWebhook] issues exactly one POST and never reads
    the status of the response.  When the request settles, no further
    request is issued and one log line is written for it: the failure
    line, with the error's message, when the request is rejected; the
    sent line when it is answered, whatever the status.  The session
    state is the same whether the POST was answered or failed -- after
    one step and after any run -- and so is all that is logged after that
    line. *)
Theorem webhook_single_post_status_unread c s data k i o o' evs :
  exec (sendWebhook data k) s =
    (set_requests
       (requests s ++
          [{| req_data := data; req_cont := k; req_settled := false |}]) s,
     []) ∧
  emitted (fst (step c s (HttpSettled i o))) = emitted s ∧
  fst (step c s (HttpSettled i o)) = fst (step c s (HttpSettled i o')) ∧
  fst (run c evs s) = fst (run c (forget_outcome <$> evs) s) ∧
  (∀ code code',
     step c s (HttpSettled i (Responded code))
     = step c s (HttpSettled i (Responded code'))) ∧
  (∀ r, terminated s = false → requests s !! i = Some r →
        req_settled r = false →
        ∃ rest,
          (∀ code, snd (step c s (HttpSettled i (Responded code)))
                   = LogWebhookSent (field "type" (req_data r)) :: rest) ∧
          (∀ m, snd (step c s (HttpSettled i (Rejected m)))
                = LogWebhookFailed m :: rest)).
Proof.
  split; [reflexivity|].
  split; [apply step_HttpSettled_emitted|].
  split; [apply step_HttpSettled_outcome|].
  split; [apply run_forget_outcome|].
  split; [apply step_HttpSettled_status|].
  intros r Ht Hr Hs. eexists. split.
  - intros code. rewrite (step_HttpSettled_pending c s i r) by done.
    rewrite exec_settle. cbn [snd settlement_line]. reflexivity.
  - intros m. rewrite (step_HttpSettled_pending c s i r) by done.
    rewrite exec_settle. cbn [snd settlement_line]. reflexivity.
Qed.

Lemma webhook_single_post_status_unread_witness :
  let s := fst (step RegistrationRecovery initial
                  (CallAlerting (ParsedObject (lead "c1")) (JStr "vox") "t0")) in
  fst (step RegistrationRecovery s (HttpSettled 0 (Rejected (JStr "timeout"))))
    = fst (step RegistrationRecovery s (HttpSettled 0 (Responded 200))) ∧
  ∃ rest,
    snd (step RegistrationRecovery s (HttpSettled 0 (Rejected (JStr "timeout"))))
      = LogWebhookFailed (JStr "timeout") :: rest ∧
    snd (step RegistrationRecovery s (HttpSettled 0 (Responded 500)))
      = LogWebhookSent (JStr "call_started") :: rest.
Proof.
  intros s.
  destruct (webhook_single_post_status_unread RegistrationRecovery s
              [] ResumeSetup 0 (Rejected (JStr "timeout")) (Responded 200) [])
    as (_ & _ & Hstate & _ & _ & Hlog).
  split; [exact Hstate|].
  destruct (Hlog {| req_data := call_started_event (callData s) (JStr "vox") "t0";
                    req_cont := ResumeSetup; req_settled := false |})
    as (rest & H1 & H2); [reflexivity | reflexivity | reflexivity |].
  exists rest. split; [exact (H2 (JStr "timeout")) | exact (H1 500%Z)].
Defined.

(** Settling the request a callback has just issued resumes that
    callback. *)
Lemma step_settle_new c s r o :
  terminated s = false → req_settled r = false →
  fst (step c (set_requests (requests s ++ [r]) s)
         (HttpSettled (length (requests s)) o)) =
  fst (exec (resume c (req_cont r))
         (set_requests (requests s ++ [settle r]) s)).
Proof.
  intros Ht Hs.
  rewrite (step_HttpSettled_pending c _ _ r o); [|done| |done].
  2:{ cbn. by apply list_lookup_middle. }
  rewrite exec_settle. cbn. by rewrite alter_snoc.
Qed.

(** C10.  When the context payload does not parse, [callData] is still
    [{}] in the [catch] block: the [call_error] envelope is built with an
    undefined [call_id], and the body posted carries no [call_id] key. *)
Theorem malformed_payload_error_has_no_call_id c message stack vox_id now :
  let s1 := fst (step c initial
                   (CallAlerting (ParseThrows message stack) vox_id now)) in
  callData s1 = empty_callData ∧
  emitted s1 = [[("type", JStr "call_error"); ("call_id", JUndefined);
                 ("error", message)]] ∧
  (postData <$> requests s1) =
    [("type", JStr "call_error")
       :: (if decide (message = JUndefined) then [] else [("error", message)])] ∧
  Forall (λ r, "call_id" ∉ keys (postData r)) (requests s1) ∧
  fst (step c initial (CallAlerting (ParsedNull message stack) vox_id now)) = s1.
Proof.
  intros s1. unfold s1.
  split; [by destruct c|]. split; [by destruct c|].
  split; [by destruct c, message|].
  split; [|by destruct c].
  assert (Hreq : requests (fst (step c initial
                   (CallAlerting (ParseThrows message stack) vox_id now))) =
    [{| req_data := call_error_event empty_callData message;
        req_cont := ResumeCatch; req_settled := false |}]) by (by destruct c).
  rewrite Hreq. apply Forall_singleton.
  destruct message;
    match goal with
    | |- _ ∉ ?l => let l' := eval vm_compute in l in change l with l'
    end;
    rewrite ?not_elem_of_cons; repeat split; try done; apply not_elem_of_nil.
Qed.

(** What each continuation does to the state. *)
Lemma resume_ToolCall c id p s :
  fst (exec (resume c (ResumeToolCall id p)) s) =
  set_timers (timers s ++ [{| delay := 4000; fired := false |}])
    (set_toolResponses
       (toolResponses s ++ [{| tr_id := id; tr_success := true; tr_message := c |}])
       s).
Proof. by destruct c. Qed.

Lemma resume_Setup c s :
  fst (exec (resume c ResumeSetup) s) = set_connecting true s.
Proof. reflexivity. Qed.



Lemma step_TimerFires_armed c s t tm :
  terminated s = false → timers s !! t = Some tm → fired tm = false →
  fst (step c s (TimerFires t)) =
  add_hangup (set_timers (alter expire t (timers s)) s).
Proof.
  intros Ht Htm Hf. unfold step, handler. by rewrite Ht, Htm, Hf.
Qed.

(** C6.  Once [save_call_result] has been received and its webhook has
    settled, a timer of 4000 ms is armed -- not before, and with that
    delay whatever the call -- and when it expires the runtime hangs up
    the call leg. *)
Theorem result_then_grace_delay_then_hangup c s fc p o :
  terminated s = false → toolCallListener s = true →
  fc_name fc = JStr "save_call_result" → fc_parameters fc = Some p →
  let s1 := fst (step c s (ToolCall fc)) in
  let s2 := fst (step c s1 (HttpSettled (length (requests s)) o)) in
  let s3 := fst (step c s2 (TimerFires (length (timers s)))) in
  emitted s1 = emitted s ++ [call_result_event (callData s) p] ∧
  timers s1 = timers s ∧
  timers s2 = timers s ++ [{| delay := 4000; fired := false |}] ∧
  hangups s2 = hangups s ∧
  terminated s2 = false ∧
  timers s3 = timers s ++ [{| delay := 4000; fired := true |}] ∧
  hangups s3 = S (hangups s).
Proof.
  intros Ht Hl Hn Hp s1 s2 s3.
  pose (r := {| req_data := call_result_event (callData s) p;
                req_cont := ResumeToolCall (fc_id fc) p;
                req_settled := false |}).
  assert (E1 : s1 = set_requests (requests s ++ [r]) s).
  { unfold s1. by rewrite (step_ToolCall_save c s fc p). }
  assert (E2 : s2 =
    set_timers (timers s ++ [{| delay := 4000; fired := false |}])
      (set_toolResponses
         (toolResponses s ++
            [{| tr_id := fc_id fc; tr_success := true; tr_message := c |}])
         (set_requests (requests s ++ [settle r]) s))).
  { unfold s2. rewrite E1. rewrite step_settle_new by done.
    cbn [req_cont r]. by rewrite resume_ToolCall. }
  assert (Ht2 : terminated s2 = false) by (by rewrite E2).
  assert (Htm2 : timers s2 !! length (timers s)
                 = Some {| delay := 4000; fired := false |}).
  { rewrite E2. cbn. by apply list_lookup_middle. }
  assert (E3 := step_TimerFires_armed c s2 _ _ Ht2 Htm2 eq_refl). fold s3 in E3.
  clear Ht2 Htm2.
  clearbody s1 s2 s3. subst s1 s2 s3. cbn.
  unfold emitted. cbn. rewrite fmap_app, alter_snoc. by cbn.
Qed.

Lemma result_then_grace_delay_then_hangup_witness :
  let live := fst (run RegistrationRecovery
                     [CallAlerting (ParsedObject (lead "c1")) (JStr "vox") "t0";
                      HttpSettled 0 (Responded 200);
                      GeminiSettled Connected] initial) in
  let fc := save "f1" "COMPLETED_REGISTRATION" 9 in
  let s3 := fst (run RegistrationRecovery
                   [ToolCall fc; HttpSettled 1 (Responded 503); TimerFires 0] live) in
  (terminated live = false ∧ toolCallListener live = true ∧
   fc_name fc = JStr "save_call_result") ∧
  timers s3 = [{| delay := 4000; fired := true |}] ∧
  hangups s3 = 1.
Proof.
  intros live fc s3. split; [by repeat split|].
  destruct (result_then_grace_delay_then_hangup RegistrationRecovery live fc
              {| tp_disposition := JStr "COMPLETED_REGISTRATION";
                 tp_cx_score := JNum 9; tp_summary := JStr "..." |}
              (Responded 503) eq_refl eq_refl eq_refl eq_refl)
    as (_ & _ & _ & _ & _ & Htm & Hh).
  split; [exact Htm | exact Hh].
Defined.

(** [phase] looks only at the flags, the client and the requests. *)
Lemma phase_ext s s' :
  alerted s' = alerted s → connecting s' = connecting s →
  (geminiClient s' = None ↔ geminiClient s = None) →
  listeners s' = listeners s → requests s' = requests s →
  phase s → phase s'.
Proof.
  intros Ha Hc Hg Hl Hr H.
  assert (Hsome : is_Some (geminiClient s) → is_Some (geminiClient s')).
  { rewrite <- !not_eq_None_Some. tauto. }
  destruct H as [s | s r | s r | s pre r | s r rest].
  - apply Fresh; try congruence; by apply Hg.
  - apply (Starting _ r); try congruence; by apply Hg.
  - apply (Connecting _ r); try congruence; by apply Hg.
  - apply (SetupFailed _ pre r); try congruence; try done; by apply Hg.
  - apply (Live _ r rest); try congruence; auto.
Qed.

Lemma listener_request_settle r : listener_request r → listener_request (settle r).
Proof. done. Qed.

(** Marking a request settled keeps the phase, unless it is the
    [call_started] request the setup is waiting for. *)
Lemma phase_mark_settled s i r :
  phase s → requests s !! i = Some r → req_settled r = false →
  req_cont r ≠ ResumeSetup →
  phase (set_requests (alter settle i (requests s)) s).
Proof.
  intros H Hi Hs Hk.
  destruct H as [s Ha Hc Hg Hl Hr | s r1 Ha Hc Hg Hl Hr Hst
                | s r1 Ha Hc Hg Hl Hr Hst
                | s pre r1 Ha Hc Hg Hl Hr Her Hpre
                | s r1 rest Ha Hc Hg Hl Hr Hst Hrest];
    rewrite Hr in Hi |- *.
  - done.
  - destruct i as [|i]; [|done]. cbn in Hi. simplify_eq.
    by destruct Hst as (_ & ? & _).
  - destruct i as [|i]; [|done]. cbn in Hi. simplify_eq.
    destruct Hst as (_ & _ & ?). congruence.
  - destruct Hpre as [->|(r0 & -> & Hst)].
    + destruct i as [|i]; [|done]. cbn in Hi. simplify_eq.
      by apply (SetupFailed _ [] (settle r)); try done; left.
    + destruct i as [|[|i]]; [| |done]; cbn in Hi; simplify_eq.
      * destruct Hst as (_ & _ & ?). congruence.
      * apply (SetupFailed _ [r0] (settle r)); try done. right. eauto.
  - destruct i as [|i]; cbn in Hi; simplify_eq.
    + destruct Hst as (_ & _ & ?). congruence.
    + apply (Live _ r1 (alter settle i rest)); try done.
      apply Forall_alter; [done|]. intros x _. apply listener_request_settle.
Qed.

(** What a continuation other than the setup's does is outside what
    [phase] looks at. *)
Lemma phase_resume c k s :
  k ≠ ResumeSetup → phase s → phase (fst (exec (resume c k) s)).
Proof.
  intros Hk H. eapply phase_ext; [..|exact H];
    destruct k; try done;
    unfold exec, resume, ended_resumed, close_geminiClient, mbind, Rt_bind, get;
    destruct c; try reflexivity;
    destruct (geminiClient s) eqn:Hg; try reflexivity;
    unfold modify, skip, VoxEngine_terminate, mret, Rt_ret; cbn;
    rewrite ?Hg; by split.
Qed.

(** The alerting handler, by the fate of the payload. *)
Lemma step_CallAlerting_parsed c s leadData vox_id now :
  terminated s = false → alerted s = false →
  let cd := {| cd_call_id := ld_call_id leadData;
               cd_lead_id := ld_lead_id leadData;
               cd_lead_name := ld_name leadData;
               cd_lead_type := ld_type leadData;
               cd_context := js_or (context_of c leadData) (JStr "unknown") |} in
  fst (step c s (CallAlerting (ParsedObject leadData) vox_id now)) =
  set_requests
    (requests s ++ [{| req_data := call_started_event cd vox_id now;
                       req_cont := ResumeSetup; req_settled := false |}])
    (set_callData cd (set_answered (set_alerted s))).
Proof. intros Ht Ha cd. unfold step, handler. by rewrite Ht, Ha. Qed.

Lemma step_CallAlerting_throws c s cdt message stack vox_id now :
  terminated s = false → alerted s = false →
  setup_exception cdt = Some (message, stack) →
  fst (step c s (CallAlerting cdt vox_id now)) =
  set_requests
    (requests s ++ [{| req_data := call_error_event (callData s) message;
                       req_cont := ResumeCatch; req_settled := false |}])
    (set_answered (set_alerted s)).
Proof.
  intros Ht Ha Hx. unfold step, handler. rewrite Ht, Ha.
  destruct cdt, c; simplify_eq/=; reflexivity.
Qed.

Lemma step_GeminiSettled_connected c s :
  terminated s = false → connecting s = true →
  fst (step c s (GeminiSettled Connected)) =
  set_listeners true true true
    (set_bridged (set_geminiClient (Some {| closes := 0 |})
                    (set_connecting false s))).
Proof. intros Ht Hc. unfold step, handler. by rewrite Ht, Hc. Qed.

Lemma step_GeminiSettled_failed c s message stack :
  terminated s = false → connecting s = true →
  fst (step c s (GeminiSettled (ConnectFailed message stack))) =
  set_requests
    (requests s ++ [{| req_data := call_error_event (callData s) message;
                       req_cont := ResumeCatch; req_settled := false |}])
    (set_connecting false s).
Proof. intros Ht Hc. unfold step, handler. rewrite Ht, Hc. by destruct c. Qed.

Lemma step_phase c s e : phase s → phase (fst (step c s e)).
Proof.
  intros H.
  destruct (terminated s) eqn:Ht; [by rewrite step_terminated|].
  destruct e as [cdt v now|i o|o|evt|fc| | |t].
  5:{ (* ToolCall *)
    destruct (toolCallListener s) eqn:Hl.
    2:{ unfold step, handler. by rewrite Ht, Hl. }
    destruct (decide (fc_name fc = JStr "save_call_result")) as [Hn|Hn].
    2:{ eapply phase_ext; [..|exact H]; unfold step, handler, on_ToolCall;
        rewrite Ht, Hl; by case_decide. }
    destruct (fc_parameters fc) as [p|] eqn:Hp.
    2:{ eapply phase_ext; [..|exact H]; unfold step, handler, on_ToolCall;
        rewrite Ht, Hl, Hp; by case_decide. }
    rewrite (step_ToolCall_save c s fc p) by done. cbn [fst].
    destruct H as [s _ _ _ Hls _ | s r1 _ _ _ Hls _ _ | s r1 _ _ _ Hls _ _
                  | s pre r1 _ _ _ Hls _ _ _ | s r1 rest Ha Hc Hg Hls Hr Hst Hrest];
      try (unfold listeners in Hls; congruence).
    apply (Live _ r1 (rest ++ [{| req_data := call_result_event (callData s) p;
                                  req_cont := ResumeToolCall (fc_id fc) p;
                                  req_settled := false |}])); try done.
    - cbn. by rewrite Hr.
    - apply Forall_app. split; [done|]. apply Forall_singleton. left.
      split; [done|]. eauto. }
  7:{ (* TimerFires *)
    eapply phase_ext; [..|exact H]; unfold step, handler; rewrite Ht;
      destruct (timers s !! t) as [[d []]|]; reflexivity. }
  4:{ (* GeminiSocketClose *)
    eapply phase_ext; [..|exact H]; unfold step, handler; rewrite Ht;
      destruct (connecting s || _), c; reflexivity. }
  - (* CallAlerting *)
    destruct (alerted s) eqn:Hal.
    { unfold step, handler. by rewrite Ht, Hal. }
    destruct H as [s _ Hc Hg Hls Hr | s r1 Ha | s r1 Ha | s pre r1 Ha
                  | s r1 rest Ha]; try congruence.
    destruct (setup_exception cdt) as [[m st]|] eqn:Hx.
    + rewrite (step_CallAlerting_throws c s cdt m st) by done.
      eapply (SetupFailed _ [] _); try done;
        [cbn; by rewrite Hr | done | by left].
    + destruct cdt as [| |ld]; try done.
      rewrite step_CallAlerting_parsed by done.
      eapply Starting; try done; [cbn; by rewrite Hr | done].
  - (* HttpSettled *)
    destruct (requests s !! i) as [r|] eqn:Hi.
    2:{ unfold step, handler. by rewrite Ht, Hi. }
    destruct (req_settled r) eqn:Hs.
    { unfold step, handler. by rewrite Ht, Hi, Hs. }
    rewrite (step_HttpSettled_pending c s i r o) by done.
    rewrite exec_settle. cbn [fst].
    assert (req_cont r = ResumeSetup ∨ req_cont r ≠ ResumeSetup) as [Hk|Hk]
      by (destruct (req_cont r); auto).
    2:{ apply phase_resume; [done|]. by apply (phase_mark_settled s i r). }
    rewrite Hk, resume_Setup.
    destruct H as [s Ha Hc Hg Hls Hr | s r1 Ha Hc Hg Hls Hr Hst
                  | s r1 Ha Hc Hg Hls Hr Hst
                  | s pre r1 Ha Hc Hg Hls Hr Her Hpre
                  | s r1 rest Ha Hc Hg Hls Hr Hst Hrest];
      rewrite Hr in Hi |- *.
    + done.
    + destruct i as [|i]; [|done]. cbn in Hi. simplify_eq.
      apply (Connecting _ (settle r)); try done.
      destruct Hst as (? & ? & ?). by repeat split.
    + destruct i as [|i]; [|done]. cbn in Hi. simplify_eq.
      destruct Hst as (_ & _ & ?). congruence.
    + destruct Hpre as [->|(r0 & -> & Hst)].
      * destruct i as [|i]; [|done]. cbn in Hi. simplify_eq.
        destruct Her as (_ & ?). congruence.
      * destruct i as [|[|i]]; [| |done]; cbn in Hi; simplify_eq.
        -- destruct Hst as (_ & _ & ?). congruence.
        -- destruct Her as (_ & ?). congruence.
    + destruct i as [|i]; cbn in Hi; simplify_eq.
      * destruct Hst as (_ & _ & ?). congruence.
      * rewrite Forall_lookup in Hrest. apply Hrest in Hi.
        destruct Hi as [(_ & ? & ? & ?)|(_ & [?|?])]; congruence.
  - (* GeminiSettled *)
    destruct (connecting s) eqn:Hco.
    2:{ unfold step, handler. by rewrite Ht, Hco. }
    destruct H as [s Ha Hc Hg Hls Hr | s r1 Ha Hc Hg Hls Hr Hst
                  | s r1 Ha Hc Hg Hls Hr Hst
                  | s pre r1 Ha Hc Hg Hls Hr Her Hpre
                  | s r1 rest Ha Hc Hg Hls Hr Hst Hrest]; try congruence.
    destruct o as [|m st].
    + rewrite step_GeminiSettled_connected by done.
      by apply (Live _ r1 []).
    + rewrite step_GeminiSettled_failed by done.
      eapply (SetupFailed _ [r1] _); try done;
        [cbn; by rewrite Hr | done | right; eauto].
  - (* Disconnected *)
    destruct (disconnectedListener s) eqn:Hl.
    2:{ unfold step, handler. by rewrite Ht, Hl. }
    rewrite step_Disconnected by done. cbn [fst].
    destruct H as [s _ _ _ Hls _ | s r1 _ _ _ Hls _ _ | s r1 _ _ _ Hls _ _
                  | s pre r1 _ _ _ Hls _ _ _ | s r1 rest Ha Hc Hg Hls Hr Hst Hrest];
      try (unfold listeners in Hls; congruence).
    apply (Live _ r1 (rest ++ [{| req_data := call_ended_event (callData s);
                                  req_cont := ResumeDisconnected;
                                  req_settled := false |}])); try done.
    + cbn. by rewrite Hr.
    + apply Forall_app. split; [done|]. apply Forall_singleton. right.
      split; [done|]. by left.
  - (* Failed *)
    destruct (failedListener s) eqn:Hl.
    2:{ unfold step, handler. by rewrite Ht, Hl. }
    rewrite step_Failed by done. cbn [fst].
    destruct H as [s _ _ _ Hls _ | s r1 _ _ _ Hls _ _ | s r1 _ _ _ Hls _ _
                  | s pre r1 _ _ _ Hls _ _ _ | s r1 rest Ha Hc Hg Hls Hr Hst Hrest];
      try (unfold listeners in Hls; congruence).
    apply (Live _ r1 (rest ++ [{| req_data := call_ended_event (callData s);
                                  req_cont := ResumeFailed;
                                  req_settled := false |}])); try done.
    + cbn. by rewrite Hr.
    + apply Forall_app. split; [done|]. apply Forall_singleton. right.
      split; [done|]. by right.
Qed.

Lemma run_phase c evs s : phase s → phase (fst (run c evs s)).
Proof.
  revert s. induction evs as [|e evs IH]; intros s H; [done|].
  rewrite run_cons_fst. apply IH. by apply step_phase.
Qed.

Lemma phase_initial : phase initial.
Proof. by apply Fresh. Qed.

Lemma listener_request_not_error (rest : list request) :
  Forall listener_request rest →
  JStr "call_error" ∉ (field "type" <$> (req_data <$> rest)).
Proof.
  intros Hall. rewrite <- list_fmap_compose, list_elem_of_fmap.
  intros (r & Hty & Hr). rewrite Forall_forall in Hall. apply Hall in Hr.
  cbn in Hty. unfold listener_request, has_type in Hr.
  destruct Hr as [(? & _)|(? & _)]; congruence.
Qed.

(** A session that has emitted [call_error] is one whose setup failed. *)
Lemma phase_call_error s :
  phase s → JStr "call_error" ∈ emitted_types s →
  (emitted_types s = [JStr "call_error"] ∨
   emitted_types s = [JStr "call_started"; JStr "call_error"]) ∧
  geminiClient s = None ∧ listeners s = (false, false, false).
Proof.
  intros H. unfold emitted_types, emitted.
  destruct H as [s Ha Hc Hg Hls Hr | s r1 Ha Hc Hg Hls Hr Hst
                | s r1 Ha Hc Hg Hls Hr Hst
                | s pre r1 Ha Hc Hg Hls Hr Her Hpre
                | s r1 rest Ha Hc Hg Hls Hr Hst Hrest];
    rewrite Hr; cbn.
  - by intros ?%elem_of_nil.
  - destruct Hst as (-> & _). intros ?%list_elem_of_singleton. done.
  - destruct Hst as (-> & _). intros ?%list_elem_of_singleton. done.
  - intros _. split; [|done]. destruct Her as (Hty & _).
    destruct Hpre as [->|(r0 & -> & (Hty0 & _))]; cbn.
    + left. by rewrite Hty.
    + right. by rewrite Hty0, Hty.
  - destruct Hst as (-> & _). intros [?|Hin]%elem_of_cons; [done|].
    by apply listener_request_not_error in Hin.
Qed.

(** The [Failed] listener exists only once the Gemini client does. *)
Lemma phase_failedListener s :
  phase s → failedListener s = true → is_Some (geminiClient s).
Proof.
  intros H Hl.
  destruct H as [s _ _ _ Hls _ | s r1 _ _ _ Hls _ _ | s r1 _ _ _ Hls _ _
                | s pre r1 _ _ _ Hls _ _ _ | s r1 rest _ _ Hg _ _ _ _];
    try (unfold listeners in Hls; congruence). done.
Qed.

Lemma emitted_types_snoc s s' r :
  requests s' = requests s ++ [r] →
  emitted_types s' = emitted_types s ++ [field "type" (req_data r)].
Proof. intros Hr. unfold emitted_types, emitted. by rewrite Hr, !fmap_app. Qed.

(** Until the Gemini client exists no listener does: a [Failed] or a
    [Disconnected] signal runs nothing. *)
Lemma signal_before_listeners c evs :
  let s := fst (run c evs initial) in
  geminiClient s = None →
  step c s Failed = (s, []) ∧ step c s Disconnected = (s, []).
Proof.
  intros s Hg.
  assert (Hph : phase s) by apply run_phase, phase_initial.
  assert (Hls : listeners s = (false, false, false)).
  { destruct Hph as [s _ _ _ Hls _ | s r1 _ _ _ Hls _ _ | s r1 _ _ _ Hls _ _
                    | s pre r1 _ _ _ Hls _ _ _ | s r1 rest _ _ Hg' _ _ _ _];
      try done. rewrite Hg in Hg'. by destruct Hg'. }
  unfold listeners in Hls. simplify_eq.
  unfold step, handler. destruct (terminated s); [done|].
  by rewrite H0, H1.
Qed.

(** C4.  A carrier failure signalled while the Gemini connection is still
    being established is lost.  The [Failed] listener is registered only
    after the two [await]s of the setup, so the signal finds none: nothing
    is emitted, logged or changed, and the session goes on as if the
    carrier had not failed -- once the connection is up it has emitted
    [call_started] only, has not hung up and has not terminated.  The same
    signal on the connected session emits [call_ended] and, when that POST
    settles, terminates. *)
Theorem carrier_failure_before_connection_is_dropped :
  let s0 := fst (run RegistrationRecovery
                   [CallAlerting (ParsedObject (lead "c1")) (JStr "vox") "t0";
                    HttpSettled 0 (Responded 200)] initial) in
  let live := fst (run RegistrationRecovery [GeminiSettled Connected] s0) in
  let s := fst (run RegistrationRecovery [Failed; GeminiSettled Connected] s0) in
  (connecting s0 = true ∧ geminiClient s0 = None ∧ failedListener s0 = false) ∧
  step RegistrationRecovery s0 Failed = (s0, []) ∧
  s = live ∧
  emitted_types s = [JStr "call_started"] ∧
  (JStr "call_error" ∉ emitted_types s) ∧
  terminated s = false ∧ hangups s = 0 ∧
  emitted_types (fst (step RegistrationRecovery live Failed))
    = [JStr "call_started"; JStr "call_ended"] ∧
  terminated (fst (run RegistrationRecovery
                     [Failed; HttpSettled 1 (Responded 200)] live)) = true.
Proof.
  vm_compute. repeat split; try reflexivity.
  intros H%list_elem_of_singleton. discriminate H.
Qed.

Lemma count_type_snoc ty s s' r :
  requests s' = requests s ++ [r] → has_type ty r →
  count_type ty s' = S (count_type ty s).
Proof.
  intros Hr Hty. unfold count_type. rewrite (emitted_types_snoc s s' r Hr).
  rewrite filter_app, length_app, Hty.
  rewrite (filter_cons_True _ _ []) by done. cbn. lia.
Qed.

Lemma count_type_same ty s s' :
  emitted_types s' = emitted_types s → count_type ty s' = count_type ty s.
Proof. intros H. unfold count_type. by rewrite H. Qed.

Lemma count_type_other ty ty' s s' :
  ty' ≠ ty → emitted_types s' = emitted_types s ++ [JStr ty'] →
  count_type ty s' = count_type ty s.
Proof.
  intros Hne H. unfold count_type. rewrite H, filter_app.
  rewrite (filter_cons_False _ _ []) by congruence.
  by rewrite filter_nil, app_nil_r.
Qed.

(** An event that is not a live [save_call_result] invocation emits, if
    anything, an event of another type. *)
Lemma step_emits_other c s e :
  captures_outcome s e = false →
  emitted_types (fst (step c s e)) = emitted_types s ∨
  ∃ ty, ty ≠ "call_result" ∧
        emitted_types (fst (step c s e)) = emitted_types s ++ [JStr ty].
Proof.
  unfold captures_outcome. intros Hcap.
  destruct (terminated s) eqn:Ht; [left; by rewrite step_terminated|].
  destruct e as [cdt v now|i o|o|evt|fc| | |t].
  - destruct (alerted s) eqn:Ha.
    { left. unfold step, handler. by rewrite Ht, Ha. }
    destruct (setup_exception cdt) as [[m st]|] eqn:Hx.
    + right. exists "call_error". split; [done|].
      rewrite (step_CallAlerting_throws c s cdt m st) by done.
      unfold emitted_types, emitted; cbn; by rewrite !fmap_app.
    + destruct cdt as [| |ld]; try done. right. exists "call_started".
      split; [done|]. rewrite step_CallAlerting_parsed by done.
      unfold emitted_types, emitted; cbn; by rewrite !fmap_app.
  - left. unfold emitted_types. by rewrite step_HttpSettled_emitted.
  - destruct (connecting s) eqn:Hco.
    2:{ left. unfold step, handler. by rewrite Ht, Hco. }
    destruct o as [|m st].
    + left. by rewrite step_GeminiSettled_connected.
    + right. exists "call_error". split; [done|].
      rewrite step_GeminiSettled_failed by done. unfold emitted_types, emitted; cbn; by rewrite !fmap_app.
  - left. unfold step, handler. rewrite Ht.
    by destruct (connecting s || _), c.
  - left. destruct (toolCallListener s) eqn:Hl.
    2:{ unfold step, handler. by rewrite Ht, Hl. }
    cbn in Hcap. apply bool_decide_eq_false in Hcap.
    unfold step, handler, on_ToolCall. rewrite Ht, Hl.
    case_decide as Hn; [|done].
    destruct (fc_parameters fc) as [p|] eqn:Hp; [|done].
    destruct Hcap. split; [done|]. by rewrite Hp.
  - destruct (disconnectedListener s) eqn:Hl.
    2:{ left. unfold step, handler. by rewrite Ht, Hl. }
    right. exists "call_ended". split; [done|].
    rewrite step_Disconnected by done. unfold emitted_types, emitted; cbn; by rewrite !fmap_app.
  - destruct (failedListener s) eqn:Hl.
    2:{ left. unfold step, handler. by rewrite Ht, Hl. }
    right. exists "call_ended". split; [done|].
    rewrite step_Failed by done. unfold emitted_types, emitted; cbn; by rewrite !fmap_app.
  - left. unfold step, handler. rewrite Ht.
    by destruct (timers s !! t) as [[d []]|].
Qed.

Lemma step_count_call_result c s e :
  count_type "call_result" (fst (step c s e)) =
  count_type "call_result" s + (if captures_outcome s e then 1 else 0).
Proof.
  destruct (captures_outcome s e) eqn:Hcap.
  - unfold captures_outcome in Hcap.
    destruct e as [| | | |fc| | |]; try (by rewrite andb_false_r in Hcap).
    apply andb_true_iff in Hcap as [[Ht Hl]%andb_true_iff Hfc].
    apply negb_true_iff in Ht. apply bool_decide_eq_true in Hfc.
    destruct Hfc as [Hn [p Hp]].
    rewrite (step_ToolCall_save c s fc p) by done. cbn [fst].
    set (r := {| req_data := call_result_event (callData s) p;
                 req_cont := ResumeToolCall (fc_id fc) p;
                 req_settled := false |}).
    rewrite (count_type_snoc "call_result" s (set_requests (requests s ++ [r]) s) r)
      by done.
    lia.
  - destruct (step_emits_other c s e Hcap) as [Hsame|(ty & Hne & Happ)].
    + rewrite (count_type_same _ _ _ Hsame). lia.
    + rewrite (count_type_other _ ty _ _ Hne Happ). lia.
Qed.

Lemma run_count_call_result c evs s :
  count_type "call_result" (fst (run c evs s)) =
  count_type "call_result" s + invocations c evs s.
Proof.
  revert s. induction evs as [|e evs IH]; intros s; [cbn; lia|].
  rewrite run_cons_fst, IH, step_count_call_result. cbn [invocations]. lia.
Qed.

(** C3 (as stated, refuted).  A second [save_call_result] invocation in
    the same call emits a second [call_result] for the same [call_id]. *)
Lemma second_invocation_emits_second_call_result :
  let s := fst (run RegistrationRecovery
                  [CallAlerting (ParsedObject (lead "c1")) (JStr "vox") "t0";
                   HttpSettled 0 (Responded 200);
                   GeminiSettled Connected;
                   ToolCall (save "f1" "SCHEDULED_COMPLETION" 7);
                   HttpSettled 1 (Responded 200);
                   ToolCall (save "f2" "COMPLETED_REGISTRATION" 9)]
                  initial) in
  emitted_types s = [JStr "call_started"; JStr "call_result"; JStr "call_result"] ∧
  field "call_id" <$> emitted s = [JStr "c1"; JStr "c1"; JStr "c1"] ∧
  ¬ (count_type "call_result" s ≤ 1).
Proof.
  vm_compute. split; [reflexivity|]. split; [reflexivity|]. lia.
Qed.

(** C3 (amended).  The listener keeps no record of a result already
    captured: each [save_call_result] invocation it receives emits one
    [call_result], so [n] invocations in a live session add [n] of them;
    over any run of a session the [call_result] events emitted are as many
    as the invocations received while it was live. *)
Theorem call_result_per_invocation c s fcs evs :
  terminated s = false → toolCallListener s = true →
  Forall is_save_call_result fcs →
  let s' := fst (run c (ToolCall <$> fcs) s) in
  count_type "call_result" s' = count_type "call_result" s + length fcs ∧
  terminated s' = false ∧ toolCallListener s' = true ∧
  count_type "call_result" (fst (run c evs initial)) = invocations c evs initial.
Proof.
  intros Ht Hl Hall. cbv zeta.
  assert (Hrun : count_type "call_result" (fst (run c evs initial))
                 = invocations c evs initial).
  { by rewrite run_count_call_result. }
  revert s Ht Hl.
  induction Hall as [|fc fcs [Hn [p Hp]] _ IH]; intros s Ht Hl.
  - cbn. split; [lia|done].
  - rewrite fmap_cons, run_cons_fst.
    rewrite (step_ToolCall_save c s fc p) by done. cbn [fst].
    set (r := {| req_data := call_result_event (callData s) p;
                 req_cont := ResumeToolCall (fc_id fc) p;
                 req_settled := false |}).
    set (s1 := set_requests (requests s ++ [r]) s).
    destruct (IH s1) as (Hcount & Ht' & Hl' & _); [done..|].
    split; [|done]. rewrite Hcount.
    rewrite (count_type_snoc "call_result" s s1 r) by done.
    cbn. lia.
Qed.

Lemma call_result_per_invocation_witness :
  let s := fst (run RegistrationRecovery
                  [CallAlerting (ParsedObject (lead "c1")) (JStr "vox") "t0";
                   HttpSettled 0 (Responded 200);
                   GeminiSettled Connected] initial) in
  let fcs := [save "f1" "SCHEDULED_COMPLETION" 7;
              save "f2" "COMPLETED_REGISTRATION" 9] in
  (terminated s = false ∧ toolCallListener s = true ∧
   Forall is_save_call_result fcs) ∧
  count_type "call_result" (fst (run RegistrationRecovery (ToolCall <$> fcs) s)) = 2.
Proof.
  intros s fcs.
  assert (Hall : Forall is_save_call_result fcs).
  { repeat constructor; eexists; reflexivity. }
  split; [by repeat split|].
  destruct (call_result_per_invocation RegistrationRecovery s fcs [])
    as (Hcount & _); [reflexivity | reflexivity | exact Hall |].
  exact Hcount.
Defined.




End ScenarioFacts.

(** * Further properties of the dashboard reconciler and page *)

Section ReconcilerHistory.
Import Dashboard History.

Implicit Types (b : browser) (m : message) (st : app_state)
  (evs : list (browser * message)).

Lemma process_cons e evs st :
  process (e :: evs) st = process evs (handleWebSocketMessage (fst e) (snd e) st).
Proof. reflexivity. Qed.

Lemma ended_in_cons e evs id :
  ended_in (e :: evs) id ↔ ends id e ∨ ended_in evs id.
Proof. unfold ended_in. apply Exists_cons. Qed.

Lemma filter_keeps_all {A} (P : A → Prop) `{∀ x, Decision (P x)} (l : list A) :
  (∀ x, P x) → filter P l = l.
Proof.
  intros HP. induction l as [|x l IH]; [done|].
  rewrite filter_cons_True by done. by rewrite IH.
Qed.

Lemma filter_filter_and {A} (P Q : A → Prop)
    `{∀ x, Decision (P x)} `{∀ x, Decision (Q x)} (l : list A) :
  filter P (filter Q l) = filter (λ x, Q x ∧ P x) l.
Proof.
  induction l as [|x l IH]; [done|].
  destruct (decide (Q x)) as [HQ|HQ].
  - rewrite (filter_cons_True Q) by done.
    destruct (decide (P x)) as [HP|HP].
    + rewrite !filter_cons_True by done. by rewrite IH.
    + rewrite !filter_cons_False by tauto. done.
  - rewrite (filter_cons_False Q) by done.
    rewrite (filter_cons_False (λ x, Q x ∧ P x)) by tauto. done.
Qed.

Lemma activeCalls_process evs st :
  activeCalls (process evs st) =
  filter (λ call, ¬ ended_in evs (ac_call_id call)) (activeCalls st)
    ++ surviving evs.
Proof.
  revert st. induction evs as [|e evs IH]; intros st.
  - cbn. rewrite app_nil_r, filter_keeps_all; [done|].
    intros x Hx. by apply Exists_nil in Hx.
  - rewrite process_cons, IH. cbn [surviving].
    destruct (decide (msg_type (snd e) = JStr "call_started")) as [Hs|Hs].
    + rewrite handle_call_started by done. cbn [activeCalls setActiveCalls].
      rewrite filter_app, <- app_assoc. f_equal.
      * apply list_filter_iff. intros call. rewrite ended_in_cons.
        unfold ends. rewrite Hs. split; [|tauto].
        intros Hn [[? _]|?]; [done|tauto].
      * case_decide as Hd.
        -- rewrite filter_cons_True by (cbn; tauto). by rewrite filter_nil.
        -- rewrite filter_cons_False by (cbn; tauto). by rewrite filter_nil.
    + rewrite decide_False by tauto.
      f_equal.
      destruct (decide (msg_type (snd e) = JStr "call_ended")) as [He|He].
      * rewrite handle_call_ended by done. cbn [activeCalls setActiveCalls].
        rewrite filter_filter_and. apply list_filter_iff. intros call.
        rewrite ended_in_cons. unfold ends. rewrite He. split.
        -- intros [Hne Hn] [[_ Heq]|?]; [congruence|tauto].
        -- intros Hn. split; [|tauto]. intros Heq. apply Hn. left. done.
      * rewrite handle_unhandled_type by done.
        apply list_filter_iff. intros call. rewrite ended_in_cons.
        unfold ends. tauto.
Qed.

(** X1.  What [activeCalls] holds after any deliveries, from any state:
    the earlier entries that no [call_ended] delivery named, then the
    entries of the [call_started] deliveries not followed by a
    [call_ended] for their identifier -- in order, duplicates included. *)
Theorem activeCalls_after_history evs st :
  activeCalls (process evs st) =
  filter (λ call, ¬ ended_in evs (ac_call_id call)) (activeCalls st)
    ++ surviving evs.
Proof. apply activeCalls_process. Qed.

(** X2.  An identifier is shown as active exactly when some [call_started]
    delivery carried it and no [call_ended] delivery for it came after;
    deliveries of any other type, [call_result] and [call_error] among
    them, play no part. *)
Theorem active_iff_started_and_not_ended_since evs id :
  id ∈ active_ids (process evs initial) ↔
  ∃ pre e post,
    evs = pre ++ e :: post ∧
    msg_type (snd e) = JStr "call_started" ∧ msg_call_id (snd e) = id ∧
    ¬ ended_in post id.
Proof.
  unfold active_ids. rewrite activeCalls_process. cbn.
  induction evs as [|e evs IH]; cbn [surviving].
  - cbn. split.
    + by intros ?%elem_of_nil.
    + intros (pre & e & post & Heq & _). by destruct pre.
  - split.
    + intros Hin.
      case_decide as Hd.
      * cbn in Hin. apply elem_of_cons in Hin as [->|Hin].
        -- exists [], e, evs. destruct Hd. done.
        -- apply IH in Hin as (pre & e' & post & -> & ? & ? & ?).
           by exists (e :: pre), e', post.
      * apply IH in Hin as (pre & e' & post & -> & ? & ? & ?).
        by exists (e :: pre), e', post.
    + intros (pre & e' & post & Heq & Hs & Hid & Hn).
      destruct pre as [|e0 pre]; cbn in Heq; simplify_eq.
      * rewrite decide_True by done. cbn. apply list_elem_of_here.
      * assert (Hin : msg_call_id (snd e') ∈
                  ac_call_id <$> ([] ++ surviving (pre ++ e' :: post))).
        { apply IH. by exists pre, e', post. }
        cbn in Hin. case_decide; [cbn; by apply list_elem_of_further|done].
Qed.

Lemma active_iff_started_and_not_ended_since_witness :
  let evs := [(at_ "t0", lifecycle "call_started" "c1");
              (at_ "t1", lifecycle "call_started" "c2");
              (at_ "t2", result_msg "c1" "NOT_INTERESTED" 3);
              (at_ "t3", lifecycle "call_ended" "c2");
              (at_ "t4", lifecycle "call_error" "c1")] in
  active_ids (process evs initial) = [JStr "c1"] ∧
  JStr "c1" ∈ active_ids (process evs initial).
Proof.
  intros evs. split; [reflexivity|].
  apply (active_iff_started_and_not_ended_since evs (JStr "c1")).
  exists [], (at_ "t0", lifecycle "call_started" "c1"),
    [(at_ "t1", lifecycle "call_started" "c2");
     (at_ "t2", result_msg "c1" "NOT_INTERESTED" 3);
     (at_ "t3", lifecycle "call_ended" "c2");
     (at_ "t4", lifecycle "call_error" "c1")].
  split; [reflexivity|]. split; [reflexivity|]. split; [reflexivity|].
  refine (bool_decide_unpack _ _). vm_compute. exact I.
Defined.

Lemma handle_notifications b m st :
  notifications (handleWebSocketMessage b m st) =
  notifications st ++
    (if decide (msg_type m = JStr "call_result" ∧ permission_granted b = true)
     then [{| nt_disposition := msg_disposition m; nt_cx_score := msg_cx_score m |}]
     else []).
Proof.
  destruct (decide (msg_type m = JStr "call_result")) as [Hr|Hr].
  - unfold handleWebSocketMessage.
    rewrite (decide_False (P := msg_type m = JStr "call_started")) by congruence.
    rewrite (decide_False (P := msg_type m = JStr "call_ended")) by congruence.
    rewrite (decide_True (P := msg_type m = JStr "call_result")) by done.
    destruct (permission_granted b); cbn [notifications notify setRecentResults].
    + by rewrite decide_True.
    + rewrite decide_False by (intros [_ ?]; done). by rewrite app_nil_r.
  - rewrite decide_False by tauto. rewrite app_nil_r.
    unfold handleWebSocketMessage. by repeat case_decide.
Qed.

(** X3.  One notification is shown per [call_result] delivery that finds
    the permission granted, in delivery order, carrying that delivery's
    disposition and score; no other delivery notifies, and none is shown
    without the permission. *)
Theorem notifications_after_history evs :
  notifications (process evs initial) = notified evs.
Proof.
  induction evs as [|e evs IH] using rev_ind; [done|].
  rewrite process_snoc, handle_notifications, IH.
  unfold notified. rewrite filter_app, fmap_app. f_equal.
  case_decide as Hd.
  - rewrite filter_cons_True by done. by rewrite filter_nil.
  - rewrite filter_cons_False by done. by rewrite filter_nil.
Qed.





End ReconcilerHistory.

(** * Further properties of the reconnecting socket hook *)

Section LinkFacts.
Import Socket Link.

Implicit Types (s : hook_state) (e : event).

Lemma insert_snoc {A} (l : list A) (x y : A) :
  <[length l := y]> (l ++ [x]) = l ++ [y].
Proof. rewrite insert_app_r_alt by lia. by rewrite Nat.sub_diag. Qed.

Lemma lookup_snoc_closed (old : list ready_state) x i r :
  Forall closed old → (old ++ [x]) !! i = Some r → r ≠ CLOSED →
  i = length old ∧ r = x.
Proof.
  intros Hold Hi Hr. apply lookup_snoc_Some in Hi as [[_ Hi]|[-> ->]]; [|done].
  rewrite Forall_lookup in Hold. by apply Hold in Hi.
Qed.

Lemma lookup_snoc_over (old : list timer) x t d :
  Forall over old → (old ++ [x]) !! t = Some {| delay := d; status := Pending |} →
  t = length old ∧ x = {| delay := d; status := Pending |}.
Proof.
  intros Hold Ht. apply lookup_snoc_Some in Ht as [[_ Ht]|[-> ->]]; [|done].
  rewrite Forall_lookup in Hold. apply Hold in Ht. by destruct Ht.
Qed.

Lemma no_pending (l : list timer) t d :
  Forall over l → l !! t = Some {| delay := d; status := Pending |} → False.
Proof. rewrite Forall_lookup. intros Hl Ht. apply Hl in Ht. by destruct Ht. Qed.

Lemma closed_not_alive (l : list ready_state) :
  Forall closed l → Forall (λ r, ¬ alive r) l.
Proof.
  intros H. eapply Forall_impl; [exact H|]. intros r -> [?|?]; done.
Qed.

(** [link] does not look at the last message, the pings sent or the
    reconciler's state. *)
Lemma link_ext s s' :
  isConnected s' = isConnected s → wsRef s' = wsRef s →
  reconnectTimeoutRef s' = reconnectTimeoutRef s →
  isCleanedUp s' = isCleanedUp s → sockets s' = sockets s →
  timers s' = timers s → link s → link s'.
Proof.
  intros Hc Hw Hr Hu Hs Ht H.
  destruct H as [s | s old d | s old | s old | s | s old].
  - apply Stuck; congruence.
  - apply (Waiting _ old d); congruence.
  - apply (Dialling _ old); congruence.
  - apply (Opened _ old); congruence.
  - apply Gone; congruence.
  - apply (Lingering _ old); congruence.
Qed.

Lemma clearTimeout_frame t s :
  isCleanedUp (clearTimeout t s) = isCleanedUp s ∧
  sockets (clearTimeout t s) = sockets s ∧
  wsRef (clearTimeout t s) = wsRef s ∧
  isConnected (clearTimeout t s) = isConnected s.
Proof. unfold clearTimeout. by destruct (timers s !! t) as [[d []]|]. Qed.

Lemma clearTimeout_over t s :
  Forall over (timers s) → Forall over (timers (clearTimeout t s)).
Proof.
  intros H. unfold clearTimeout.
  destruct (timers s !! t) as [[d []]|] eqn:Ht; try done.
  by destruct (no_pending _ _ _ H Ht).
Qed.

Lemma clearTimeout_pending old d s :
  timers s = old ++ [{| delay := d; status := Pending |}] → Forall over old →
  Forall over (timers (clearTimeout (length old) s)).
Proof.
  intros Ht Hold. unfold clearTimeout. rewrite Ht.
  rewrite list_lookup_middle by done. cbn. unfold set_timer_status.
  rewrite alter_snoc. apply Forall_app. split; [done|]. by apply Forall_singleton.
Qed.

Lemma ws_close_frame i s :
  isCleanedUp (ws_close i s) = isCleanedUp s ∧
  timers (ws_close i s) = timers s ∧
  isConnected (ws_close i s) = isConnected s.
Proof. unfold ws_close. by destruct (sockets s !! i) as [[]|]. Qed.

Lemma ws_close_not_alive i s :
  Forall (λ r, ¬ alive r) (sockets s) →
  Forall (λ r, ¬ alive r) (sockets (ws_close i s)).
Proof.
  intros H. unfold ws_close.
  destruct (sockets s !! i) as [[]|] eqn:Hi; try done;
    cbn; apply Forall_insert; try done; intros [?|?]; done.
Qed.

Lemma ws_close_current old x s :
  sockets s = old ++ [x] → alive x → Forall closed old →
  Forall (λ r, ¬ alive r) (sockets (ws_close (length old) s)).
Proof.
  intros Hs Hx Hold. unfold ws_close. rewrite Hs.
  rewrite list_lookup_middle by done.
  assert (Hgoal : Forall (λ r, ¬ alive r) (old ++ [CLOSING])).
  { apply Forall_app. split; [by apply closed_not_alive|].
    apply Forall_singleton. intros [?|?]; done. }
  destruct Hx as [-> | ->]; cbn; by rewrite insert_snoc.
Qed.

Lemma step_link s e : link s → link (step s e).
Proof.
  intros H. destruct e as [i|i b d|i|i|t ct| | |i].
  - (* SocketOpen *)
    unfold step. destruct (sockets s !! i) as [r|] eqn:Hi; [|done].
    destruct (decide (r = CONNECTING)) as [->|Hr]; [|by destruct r].
    destruct H as [s Hu Hc Hs Ht | s old d Hu Hc Hs Ht Hold Hr
                  | s old Hu Hc Hs Hold Hw Ht | s old Hu Hc Hs Hold Hw Ht
                  | s Hu Hs Ht | s old Hu Hc Hs Hold Hw Ht].
    + rewrite Forall_lookup in Hs. by apply Hs in Hi.
    + rewrite Forall_lookup in Hs. by apply Hs in Hi.
    + rewrite Hs in Hi. apply lookup_snoc_closed in Hi as [-> _]; [|done..].
      unfold onopen. cbn. rewrite Hu. apply (Opened _ old); try done.
      cbn. by rewrite Hs, insert_snoc.
    + rewrite Hs in Hi. by apply lookup_snoc_closed in Hi as [_ ?].
    + rewrite Forall_lookup in Hs. apply Hs in Hi. destruct Hi. by left.
    + rewrite Hs in Hi. by apply lookup_snoc_closed in Hi as [_ ?].
  - (* SocketMessage *)
    eapply link_ext; [..|exact H]; clear H; destruct s as [c l w r u ss ts sn a];
      cbn; destruct (ss !! i) as [[]|]; try reflexivity;
      unfold onmessage; cbn; destruct u, d; reflexivity.
  - (* SocketError *)
    unfold step. by destruct (sockets s !! i).
  - (* SocketClose *)
    unfold step. destruct (sockets s !! i) as [r|] eqn:Hi; [|done].
    destruct (decide (r = CLOSED)) as [->|Hr]; [done|].
    assert (Hstep : match r with
                    | CLOSED => s
                    | _ => onclose (with_sockets (<[i := CLOSED]> (sockets s)) s)
                    end = onclose (with_sockets (<[i := CLOSED]> (sockets s)) s))
      by (by destruct r).
    rewrite Hstep. clear Hstep.
    destruct H as [s Hu Hc Hs Ht | s old d Hu Hc Hs Ht Hold Hrf
                  | s old Hu Hc Hs Hold Hw Ht | s old Hu Hc Hs Hold Hw Ht
                  | s Hu Hs Ht | s old Hu Hc Hs Hold Hw Ht].
    + rewrite Forall_lookup in Hs. by apply Hs in Hi.
    + rewrite Forall_lookup in Hs. by apply Hs in Hi.
    + rewrite Hs in Hi. apply lookup_snoc_closed in Hi as [-> _]; [|done..].
      unfold onclose. cbn. rewrite Hu. cbn.
      apply (Waiting _ (timers s) 3000); try done.
      cbn. rewrite Hs, insert_snoc. apply Forall_app. split; [done|].
      by apply Forall_singleton.
    + rewrite Hs in Hi. apply lookup_snoc_closed in Hi as [-> _]; [|done..].
      unfold onclose. cbn. rewrite Hu. cbn.
      apply (Waiting _ (timers s) 3000); try done.
      cbn. rewrite Hs, insert_snoc. apply Forall_app. split; [done|].
      by apply Forall_singleton.
    + unfold onclose. cbn. rewrite Hu. apply Gone; try done.
      cbn. apply Forall_insert; [done|]. intros [?|?]; done.
    + rewrite Hs in Hi. apply lookup_snoc_closed in Hi as [-> _]; [|done..].
      unfold onclose. cbn. rewrite Hu. cbn.
      apply (Waiting _ (timers s) 3000); try done.
      cbn. rewrite Hs, insert_snoc. apply Forall_app. split; [done|].
      by apply Forall_singleton.
  - (* TimerFires *)
    unfold step. destruct (timers s !! t) as [[d st]|] eqn:Hti; [|done].
    destruct (decide (st = Pending)) as [->|Hst]; [|by destruct st].
    destruct H as [s Hu Hc Hs Ht | s old d' Hu Hc Hs Ht Hold Hrf
                  | s old Hu Hc Hs Hold Hw Ht | s old Hu Hc Hs Hold Hw Ht
                  | s Hu Hs Ht | s old Hu Hc Hs Hold Hw Ht];
      try (by destruct (no_pending _ _ _ Ht Hti)).
    rewrite Ht in Hti. apply lookup_snoc_over in Hti as [-> Heq]; [|done].
    simplify_eq.
    assert (Hover : Forall over (set_timer_status (length old) Fired (timers s))).
    { rewrite Ht. unfold set_timer_status. rewrite alter_snoc.
      apply Forall_app. split; [done|]. by apply Forall_singleton. }
    unfold reconnect_callback, connect. cbn. rewrite Hu.
    destruct ct.
    + by apply Stuck.
    + by apply (Dialling _ (sockets s)).
  - (* PingTick *)
    eapply link_ext; [..|exact H]; clear H; destruct s as [c l w r u ss ts sn a];
      cbn; destruct (c && negb u); try reflexivity;
      unfold sendMessage; cbn; destruct w; try reflexivity;
      case_decide; reflexivity.
  - (* Unmount *)
    unfold step. destruct (isCleanedUp s) eqn:Hu; [done|].
    unfold cleanup.
    set (s1 := {| isConnected := isConnected s; lastMessage := lastMessage s;
                  wsRef := wsRef s; reconnectTimeoutRef := reconnectTimeoutRef s;
                  isCleanedUp := true; sockets := sockets s; timers := timers s;
                  sent := sent s; app := app s |}).
    set (s2 := match reconnectTimeoutRef s1 with
               | Some t => clearTimeout t s1
               | None => s1
               end).
    assert (Hf2 : isCleanedUp s2 = true ∧ sockets s2 = sockets s ∧
                  wsRef s2 = wsRef s).
    { unfold s2. destruct (reconnectTimeoutRef s1) as [t|]; [|done].
      destruct (clearTimeout_frame t s1) as (-> & -> & -> & _). done. }
    destruct Hf2 as (Hu2 & Hs2 & Hw2).
    assert (Ht2 : Forall over (timers s2)).
    { unfold s2.
      destruct H as [s Hu' Hc Hs Ht | s old d Hu' Hc Hs Ht Hold Hrf
                    | s old Hu' Hc Hs Hold Hw Ht | s old Hu' Hc Hs Hold Hw Ht
                    | s Hu' Hs Ht | s old Hu' Hc Hs Hold Hw Ht].
      2:{ cbn. rewrite Hrf. by apply (clearTimeout_pending old d). }
      all: cbn; destruct (reconnectTimeoutRef s); try done;
        by apply clearTimeout_over. }
    assert (Hs3 : Forall (λ r, ¬ alive r)
                    (sockets match wsRef s2 with
                             | Some i => ws_close i s2
                             | None => s2
                             end)).
    { rewrite Hw2.
      destruct H as [s Hu' Hc Hs Ht | s old d Hu' Hc Hs Ht Hold Hrf
                    | s old Hu' Hc Hs Hold Hw Ht | s old Hu' Hc Hs Hold Hw Ht
                    | s Hu' Hs Ht | s old Hu' Hc Hs Hold Hw Ht].
      - destruct (wsRef s); [apply ws_close_not_alive|];
          rewrite Hs2; by apply closed_not_alive.
      - destruct (wsRef s); [apply ws_close_not_alive|];
          rewrite Hs2; by apply closed_not_alive.
      - rewrite Hw. apply (ws_close_current old CONNECTING); try done;
          [congruence | by left].
      - rewrite Hw. apply (ws_close_current old OPEN); try done;
          [congruence | by right].
      - congruence.
      - rewrite Hw. apply ws_close_not_alive. rewrite Hs2, Hs. apply Forall_app.
        split; [by apply closed_not_alive|].
        apply Forall_singleton. intros [?|?]; done. }
    apply Gone; try done.
    + destruct (wsRef s2) as [i|]; [|done].
      by destruct (ws_close_frame i s2) as (-> & _).
    + destruct (wsRef s2) as [i|]; [|done].
      by destruct (ws_close_frame i s2) as (_ & -> & _).
  - (* ClosingStarts *)
    unfold step. destruct (sockets s !! i) as [r|] eqn:Hi; [|done].
    destruct (decide (r = OPEN)) as [->|Hr]; [|by destruct r].
    destruct H as [s Hu Hc Hs Ht | s old d Hu Hc Hs Ht Hold Hrf
                  | s old Hu Hc Hs Hold Hw Ht | s old Hu Hc Hs Hold Hw Ht
                  | s Hu Hs Ht | s old Hu Hc Hs Hold Hw Ht].
    + rewrite Forall_lookup in Hs. by apply Hs in Hi.
    + rewrite Forall_lookup in Hs. by apply Hs in Hi.
    + rewrite Hs in Hi. by apply lookup_snoc_closed in Hi as [_ ?].
    + rewrite Hs in Hi. apply lookup_snoc_closed in Hi as [-> _]; [|done..].
      apply (Lingering _ old); try done.
      cbn. by rewrite Hs, insert_snoc.
    + rewrite Forall_lookup in Hs. apply Hs in Hi. destruct Hi. by right.
    + rewrite Hs in Hi. by apply lookup_snoc_closed in Hi as [_ ?].
Qed.

Lemma link_mounted ct : link (mounted ct).
Proof.
  destruct ct.
  - by apply Stuck.
  - by apply (Dialling _ []).
Qed.

Lemma run_cons e evs s : run (e :: evs) s = run evs (step s e).
Proof. reflexivity. Qed.

Lemma run_link evs s : link s → link (run evs s).
Proof.
  revert s. induction evs as [|e evs IH]; intros s H; [done|].
  rewrite run_cons. by apply IH, step_link.
Qed.

Lemma filter_alive_closed (l : list ready_state) :
  Forall (λ r, ¬ alive r) l → filter alive l = [].
Proof.
  induction 1 as [|r l Hr _ IH]; [done|]. by rewrite filter_cons_False.
Qed.

Lemma filter_pending_over (l : list timer) :
  Forall over l → filter pending l = [].
Proof.
  induction 1 as [|t l Ht _ IH]; [done|]. by rewrite filter_cons_False.
Qed.

(** X5.  The hook never holds two connections, nor a connection and a
    reconnection in waiting: in every state it can reach, the sockets that
    are connecting or open and the timers still pending number at most one
    together. *)
Theorem at_most_one_connection_or_timer evs ct :
  let s := run evs (mounted ct) in
  length (filter alive (sockets s)) + length (filter pending (timers s)) ≤ 1.
Proof.
  intros s. assert (H : link s) by apply run_link, link_mounted.
  destruct H as [s Hu Hc Hs Ht | s old d Hu Hc Hs Ht Hold Hrf
                | s old Hu Hc Hs Hold Hw Ht | s old Hu Hc Hs Hold Hw Ht
                | s Hu Hs Ht | s old Hu Hc Hs Hold Hw Ht].
  - rewrite filter_alive_closed, filter_pending_over; cbn;
      [lia | done | by apply closed_not_alive].
  - rewrite filter_alive_closed by (by apply closed_not_alive).
    rewrite Ht, filter_app, filter_pending_over by done.
    rewrite (filter_cons_True pending) by done. cbn. lia.
  - rewrite Hs, filter_app, filter_alive_closed by (by apply closed_not_alive).
    rewrite (filter_cons_True alive) by (by left).
    rewrite filter_pending_over by done. cbn. lia.
  - rewrite Hs, filter_app, filter_alive_closed by (by apply closed_not_alive).
    rewrite (filter_cons_True alive) by (by right).
    rewrite filter_pending_over by done. cbn. lia.
  - rewrite filter_alive_closed, filter_pending_over; cbn; [lia | done..].
  - rewrite filter_alive_closed, filter_pending_over; cbn; [lia | done |].
    rewrite Hs. apply Forall_app. split; [by apply closed_not_alive|].
    apply Forall_singleton. intros [?|?]; done.
Qed.

(** X6.  While the component is mounted the connection flag follows the
    socket in [wsRef]: [isConnected] holds exactly when that socket has
    opened and its [close] event has not come yet, that is when its
    [readyState] is [OPEN] or, once the closing handshake has started,
    [CLOSING].  The flag is never set over a connecting or closed socket
    and never unset over an open one; it is out of date only during the
    closing handshake. *)
Theorem isConnected_iff_current_socket_open_or_closing evs ct :
  let s := run evs (mounted ct) in
  isCleanedUp s = false →
  (isConnected s = true ↔
   ∃ i, wsRef s = Some i ∧
        (sockets s !! i = Some OPEN ∨ sockets s !! i = Some CLOSING)).
Proof.
  intros s Hm. assert (H : link s) by apply run_link, link_mounted.
  destruct H as [s Hu Hc Hs Ht | s old d Hu Hc Hs Ht Hold Hrf
                | s old Hu Hc Hs Hold Hw Ht | s old Hu Hc Hs Hold Hw Ht
                | s Hu Hs Ht | s old Hu Hc Hs Hold Hw Ht].
  - rewrite Hc. split; [done|]. intros (i & _ & [Hi|Hi]);
      rewrite Forall_lookup in Hs; by apply Hs in Hi.
  - rewrite Hc. split; [done|]. intros (i & _ & [Hi|Hi]);
      rewrite Forall_lookup in Hs; by apply Hs in Hi.
  - rewrite Hc. split; [done|]. intros (i & Hi' & Hi).
    rewrite Hw in Hi'. simplify_eq. rewrite Hs in Hi.
    rewrite list_lookup_middle in Hi by done. by destruct Hi.
  - rewrite Hc. split; [|done]. intros _. exists (length old).
    split; [done|]. left. rewrite Hs. by apply list_lookup_middle.
  - congruence.
  - rewrite Hc. split; [|done]. intros _. exists (length old).
    split; [done|]. right. rewrite Hs. by apply list_lookup_middle.
Qed.

Lemma isConnected_iff_current_socket_open_or_closing_witness :
  let s := run [SocketOpen 0; SocketClose 0; TimerFires 0 false; SocketOpen 1;
                ClosingStarts 1]
             (mounted false) in
  isCleanedUp s = false ∧ sockets s !! 1 = Some CLOSING ∧
  (isConnected s = true ↔
   ∃ i, wsRef s = Some i ∧
        (sockets s !! i = Some OPEN ∨ sockets s !! i = Some CLOSING)).
Proof.
  intros s. split; [reflexivity|]. split; [reflexivity|].
  apply (isConnected_iff_current_socket_open_or_closing
           [SocketOpen 0; SocketClose 0; TimerFires 0 false; SocketOpen 1;
            ClosingStarts 1] false).
  reflexivity.
Defined.

Lemma clearTimeout_noop t s : Forall over (timers s) → clearTimeout t s = s.
Proof.
  intros H. unfold clearTimeout.
  destruct (timers s !! t) as [[d []]|] eqn:Ht; try done.
  by destruct (no_pending _ _ _ H Ht).
Qed.

Lemma ws_close_noop i s : Forall (λ r, ¬ alive r) (sockets s) → ws_close i s = s.
Proof.
  intros H. unfold ws_close. rewrite Forall_lookup in H.
  destruct (sockets s !! i) as [r|] eqn:Hi; [|done].
  apply H in Hi. destruct r; try done; destruct Hi; first [by left | by right].
Qed.

Lemma cleanup_cleaned s : isCleanedUp (cleanup s) = true.
Proof.
  unfold cleanup.
  set (s1 := {| isConnected := isConnected s; lastMessage := lastMessage s;
                wsRef := wsRef s; reconnectTimeoutRef := reconnectTimeoutRef s;
                isCleanedUp := true; sockets := sockets s; timers := timers s;
                sent := sent s; app := app s |}).
  set (s2 := match reconnectTimeoutRef s1 with
             | Some t => clearTimeout t s1
             | None => s1
             end).
  assert (E2 : isCleanedUp s2 = true).
  { unfold s2. destruct (reconnectTimeoutRef s1) as [t|]; [|done].
    by destruct (clearTimeout_frame t s1) as (-> & _). }
  destruct (wsRef s2) as [i|]; [|done].
  by destruct (ws_close_frame i s2) as (-> & _).
Qed.

(** A quiet hook stays quiet, and nothing an event does then shows. *)
Lemma step_quiet s e :
  quiet s →
  quiet (step s e) ∧
  app (step s e) = app s ∧ sent (step s e) = sent s ∧
  isConnected (step s e) = isConnected s ∧ timers (step s e) = timers s ∧
  lastMessage (step s e) = lastMessage s ∧
  length (sockets (step s e)) = length (sockets s).
Proof.
  intros [Ht Hq].
  assert (Hna : Forall (λ r, ¬ alive r) (sockets s)).
  { destruct Hq as [(_ & _ & ?)|(_ & ?)]; [by apply closed_not_alive|done]. }
  assert (Hlook : ∀ i r, sockets s !! i = Some r → ¬ alive r).
  { intros i r Hi. rewrite Forall_lookup in Hna. by apply Hna in Hi. }
  assert (Hsame : quiet s) by done.
  destruct e as [i|i b d|i|i|t ct| | |i]; unfold step.
  - destruct (sockets s !! i) as [r|] eqn:Hi; [|done].
    apply Hlook in Hi. destruct r; try done. destruct Hi. by left.
  - destruct (sockets s !! i) as [r|] eqn:Hi; [|done].
    apply Hlook in Hi. destruct r; try done. destruct Hi. by right.
  - by destruct (sockets s !! i).
  - destruct (sockets s !! i) as [r|] eqn:Hi; [|done].
    destruct Hq as [(Hu & Hc & Hs)|(Hu & Hs)].
    + rewrite Forall_lookup in Hs. apply Hs in Hi. by rewrite Hi.
    + pose proof (Hlook _ _ Hi) as Hr.
      destruct r; try done; try (destruct Hr; first [by left | by right]).
      unfold onclose. cbn. rewrite Hu. cbn. rewrite length_insert.
      repeat split; try done. right. split; [done|].
      apply Forall_insert; [done|]. intros [?|?]; done.
  - destruct (timers s !! t) as [[d st]|] eqn:Hti; [|done].
    destruct st; try done. by destruct (no_pending _ _ _ Ht Hti).
  - destruct Hq as [(Hu & Hc & Hs)|(Hu & Hs)].
    + by rewrite Hc.
    + rewrite Hu. by rewrite andb_false_r.
  - destruct (isCleanedUp s) eqn:Hu; [done|]. unfold cleanup.
    set (s1 := {| isConnected := isConnected s; lastMessage := lastMessage s;
                  wsRef := wsRef s; reconnectTimeoutRef := reconnectTimeoutRef s;
                  isCleanedUp := true; sockets := sockets s; timers := timers s;
                  sent := sent s; app := app s |}).
    assert (E2 : match reconnectTimeoutRef s1 with
                 | Some t => clearTimeout t s1
                 | None => s1
                 end = s1).
    { destruct (reconnectTimeoutRef s1); [by apply clearTimeout_noop|done]. }
    rewrite E2.
    assert (E3 : match wsRef s1 with
                 | Some i => ws_close i s1
                 | None => s1
                 end = s1).
    { destruct (wsRef s1); [by apply ws_close_noop|done]. }
    rewrite E3. repeat split; try done. by right.
  - destruct (sockets s !! i) as [r|] eqn:Hi; [|done].
    apply Hlook in Hi. destruct r; try done. destruct Hi. by right.
Qed.

Lemma run_quiet evs s :
  quiet s →
  quiet (run evs s) ∧
  app (run evs s) = app s ∧ sent (run evs s) = sent s ∧
  isConnected (run evs s) = isConnected s ∧ timers (run evs s) = timers s ∧
  lastMessage (run evs s) = lastMessage s ∧
  length (sockets (run evs s)) = length (sockets s).
Proof.
  revert s. induction evs as [|e evs IH]; intros s Hq; [done|].
  rewrite run_cons.
  destruct (step_quiet s e Hq) as (Hq' & <- & <- & <- & <- & <- & <-).
  by apply IH.
Qed.

(** X7.  Unmounting is final.  Whatever happened before and whatever the
    browser does after, once the cleanup has run no socket is ever
    connecting or open again, no timer is pending, and the reconciler's
    state, the pings sent, the connection flag and the last message stay
    as the cleanup left them. *)
Theorem unmount_is_final evs0 ct evs :
  let s := step (run evs0 (mounted ct)) Unmount in
  let s' := run evs s in
  filter alive (sockets s') = [] ∧ filter pending (timers s') = [] ∧
  length (sockets s') = length (sockets s) ∧
  app s' = app s ∧ sent s' = sent s ∧
  isConnected s' = isConnected s ∧ lastMessage s' = lastMessage s.
Proof.
  intros s s'.
  assert (Hl : link s) by apply step_link, run_link, link_mounted.
  assert (Hu : isCleanedUp s = true).
  { unfold s, step. destruct (isCleanedUp (run evs0 (mounted ct))) eqn:E; [done|].
    apply cleanup_cleaned. }
  assert (Hq : quiet s).
  { destruct Hl as [s Hu' | s old d Hu' | s old Hu' | s old Hu' | s Hu' Hs Ht
                   | s old Hu'];
      try congruence. split; [done|]. by right. }
  destruct (run_quiet evs s Hq) as ((Ht' & Hq') & Happ & Hsent & Hc & _ & Hm & Hlen).
  fold s' in Ht', Hq', Happ, Hsent, Hc, Hm, Hlen.
  split.
  { apply filter_alive_closed.
    destruct Hq' as [(_ & _ & ?)|(_ & ?)]; [by apply closed_not_alive|done]. }
  split; [by apply filter_pending_over|]. done.
Qed.

(** X8.  A failed construction is never retried.  If [new WebSocket]
    throws -- on mount, or when a reconnection timer expires -- the hook is
    left with no socket connecting or open and no timer pending, and no
    later event changes that: it stays disconnected, constructs no further
    socket and hands nothing to the reconciler. *)
Theorem failed_construction_is_not_retried evs0 ct t d evs :
  let s := run evs0 (mounted ct) in
  isCleanedUp s = false →
  timers s !! t = Some {| delay := d; status := Pending |} →
  let s' := run evs (step s (TimerFires t true)) in
  isConnected s' = false ∧
  filter alive (sockets s') = [] ∧ filter pending (timers s') = [] ∧
  length (sockets s') = length (sockets s) ∧
  app s' = app s ∧
  let m := run evs (mounted true) in
  isConnected m = false ∧ sockets m = [] ∧ timers m = [] ∧
  app m = Dashboard.initial.
Proof.
  intros s Hu Hti s'.
  assert (Hl : link s) by apply run_link, link_mounted.
  assert (Hq1 : quiet (step s (TimerFires t true)) ∧
                isConnected (step s (TimerFires t true)) = false ∧
                length (sockets (step s (TimerFires t true))) = length (sockets s) ∧
                app (step s (TimerFires t true)) = app s).
  { destruct Hl as [s Hu' Hc Hs Ht | s old d' Hu' Hc Hs Ht Hold Hrf
                   | s old Hu' Hc Hs Hold Hw Ht | s old Hu' Hc Hs Hold Hw Ht
                   | s Hu' Hs Ht | s old Hu' Hc Hs Hold Hw Ht];
      try (by destruct (no_pending _ _ _ Ht Hti)).
    unfold step. rewrite Hti. unfold reconnect_callback, connect. cbn.
    rewrite Hu. cbn. split; [|done]. split; [|left; by repeat split].
    cbn. rewrite Ht in Hti |- *.
    apply lookup_snoc_over in Hti as [-> _]; [|done].
    unfold set_timer_status. rewrite alter_snoc.
    apply Forall_app. split; [done|]. by apply Forall_singleton. }
  destruct Hq1 as (Hq1 & Hc1 & Hlen1 & Happ1).
  destruct (run_quiet evs _ Hq1) as ((Ht' & Hq') & Happ & _ & Hc & _ & _ & Hlen).
  fold s' in Ht', Hq', Happ, Hc, Hlen.
  split; [congruence|]. split.
  { apply filter_alive_closed.
    destruct Hq' as [(_ & _ & ?)|(_ & ?)]; [by apply closed_not_alive|done]. }
  split; [by apply filter_pending_over|].
  split; [congruence|]. split; [congruence|].
  assert (Hq0 : quiet (mounted true)).
  { split; [constructor|]. left. by repeat split. }
  destruct (run_quiet evs _ Hq0) as (_ & Happ0 & _ & Hc0 & Ht0 & _ & Hlen0).
  cbv zeta. split; [done|]. split; [|done].
  destruct (sockets (run evs (mounted true))); [done|]. cbn in Hlen0. lia.
Qed.

Lemma failed_construction_is_not_retried_witness :
  let s := run [SocketOpen 0; SocketClose 0] (mounted false) in
  (isCleanedUp s = false ∧
   timers s !! 0 = Some {| delay := 3000; status := Pending |}) ∧
  isConnected
    (run [TimerFires 0 false; SocketOpen 1; PingTick]
       (step s (TimerFires 0 true))) = false.
Proof.
  intros s. split; [by split|].
  destruct (failed_construction_is_not_retried
              [SocketOpen 0; SocketClose 0] false 0 3000
              [TimerFires 0 false; SocketOpen 1; PingTick]) as (H & _);
    [reflexivity | reflexivity | exact H].
Defined.

Lemma cleanup_app_sent s : app (cleanup s) = app s ∧ sent (cleanup s) = sent s.
Proof.
  destruct s as [c l w r u ss ts sn a]. unfold cleanup, clearTimeout, ws_close. cbn.
  destruct r as [t|]; cbn.
  - destruct (ts !! t) as [[d []]|]; cbn; destruct w as [i|]; cbn; try done;
      rewrite ?length_alter; destruct (ss !! i) as [[]|]; done.
  - destruct w as [i|]; cbn; [|done]. destruct (ss !! i) as [[]|]; done.
Qed.

Lemma step_app s e :
  app (step s e) =
  match e with
  | SocketMessage i b (ParsedObject m) =>
      if accepts s i then Dashboard.handleWebSocketMessage b m (app s) else app s
  | _ => app s
  end.
Proof.
  destruct e as [i|i b d|i|i|t ct| | |i].
  - unfold step. destruct (sockets s !! i) as [[]|]; try done.
    unfold onopen. cbn. by destruct (isCleanedUp s).
  - unfold step, accepts.
    destruct (sockets s !! i) as [r|] eqn:Hi.
    2:{ rewrite bool_decide_eq_false_2 by done. rewrite andb_false_r. by destruct d. }
    destruct (decide (r = OPEN)) as [->|Hr].
    + rewrite bool_decide_eq_true_2 by done. rewrite andb_true_r.
      unfold onmessage. destruct (isCleanedUp s); [by destruct d|].
      by destruct d.
    + rewrite bool_decide_eq_false_2 by congruence. rewrite andb_false_r.
      destruct r, d; done.
  - unfold step. by destruct (sockets s !! i).
  - unfold step. destruct (sockets s !! i) as [[]|]; try done;
      unfold onclose; cbn; by destruct (isCleanedUp s).
  - unfold step. destruct (timers s !! t) as [[d []]|]; try done.
    unfold reconnect_callback, connect. cbn. by destruct (isCleanedUp s), ct.
  - unfold step. destruct (isConnected s && negb (isCleanedUp s)); [|done].
    unfold sendMessage. destruct (wsRef s); [|done]. by case_decide.
  - unfold step. destruct (isCleanedUp s); [done|]. apply cleanup_app_sent.
  - unfold step. by destruct (sockets s !! i) as [[]|].
Qed.

(** X9.  The reconciler sees exactly the object messages that arrive on an
    open socket while the component is mounted, in arrival order: its state
    after any run of the hook is [handleWebSocketMessage] folded over those.
    Unparsable payloads, [null], messages on a socket that is not open and
    everything after unmount leave it untouched. *)
Theorem reconciler_sees_accepted_messages evs s :
  app (run evs s) = Dashboard.process (deliveries evs s) (app s).
Proof.
  revert s. induction evs as [|e evs IH]; intros s; [done|].
  rewrite run_cons, IH, step_app. cbn [deliveries].
  unfold Dashboard.process. rewrite foldl_app. f_equal.
  destruct e as [|i b [| |m]| | | | | |]; try done.
  by destruct (accepts s i).
Qed.

Lemma step_sent_other s e : e ≠ PingTick → sent (step s e) = sent s.
Proof.
  intros He. destruct e as [i|i b d|i|i|t ct| | |i]; try done.
  - unfold step. destruct (sockets s !! i) as [[]|]; try done.
    unfold onopen. cbn. by destruct (isCleanedUp s).
  - unfold step. destruct (sockets s !! i) as [[]|]; try done.
    unfold onmessage. by destruct (isCleanedUp s), d.
  - unfold step. by destruct (sockets s !! i).
  - unfold step. destruct (sockets s !! i) as [[]|]; try done;
      unfold onclose; cbn; by destruct (isCleanedUp s).
  - unfold step. destruct (timers s !! t) as [[d []]|]; try done.
    unfold reconnect_callback, connect. cbn. by destruct (isCleanedUp s), ct.
  - unfold step. destruct (isCleanedUp s); [done|]. apply cleanup_app_sent.
  - unfold step. by destruct (sockets s !! i) as [[]|].
Qed.

Lemma step_sent s e :
  link s →
  length (sent (step s e)) +
  match e with
  | PingTick =>
      if isConnected s && negb (isCleanedUp s) && current_is CLOSING s
      then 1 else 0
  | _ => 0
  end =
  length (sent s) +
  match e with
  | PingTick => if isConnected s && negb (isCleanedUp s) then 1 else 0
  | _ => 0
  end.
Proof.
  intros Hl.
  assert (e = PingTick ∨ e ≠ PingTick) as [->|He] by (destruct e; auto).
  2:{ rewrite step_sent_other by done. by destruct e. }
  unfold step. destruct (isConnected s && negb (isCleanedUp s)) eqn:E; [|done].
  apply andb_true_iff in E as [Hc Hu]. apply negb_true_iff in Hu.
  destruct Hl as [s Hu' Hc' | s old d Hu' Hc' | s old Hu' Hc'
                 | s old Hu' Hc' Hs Hold Hw Ht | s Hu' Hs Ht
                 | s old Hu' Hc' Hs Hold Hw Ht]; try congruence.
  - unfold sendMessage, current_is. rewrite Hw.
    rewrite decide_True by (rewrite Hs; by apply list_lookup_middle).
    rewrite bool_decide_eq_false_2
      by (rewrite Hs, list_lookup_middle by done; congruence).
    cbn. rewrite length_app. cbn. lia.
  - unfold sendMessage, current_is. rewrite Hw.
    rewrite decide_False
      by (rewrite Hs, list_lookup_middle by done; congruence).
    rewrite bool_decide_eq_true_2 by (rewrite Hs; by apply list_lookup_middle).
    cbn. lia.
Qed.

(** X10.  Every ping tick that finds the hook connected and mounted either
    sends one ping, on the socket in [wsRef], or finds that socket already
    closing and sends nothing; nothing else is ever sent, on reconnection
    or otherwise.  So over any run the messages sent number the connected
    ticks less those that fell into a closing handshake. *)
Theorem connected_tick_pings_unless_closing evs ct :
  length (sent (run evs (mounted ct))) + dropped evs (mounted ct)
  = pings evs (mounted ct).
Proof.
  assert (H : ∀ s, link s →
            length (sent (run evs s)) + dropped evs s
            = length (sent s) + pings evs s).
  { induction evs as [|e evs IH]; intros s Hl; [cbn; lia|].
    rewrite run_cons. cbn [pings dropped].
    pose proof (IH (step s e) (step_link s e Hl)) as IH'.
    pose proof (step_sent s e Hl) as Hs. lia. }
  rewrite H by apply link_mounted. by destruct ct.
Qed.

End LinkFacts.

(** * Further properties of the call-engine scenario *)

Section SessionFacts.
Import Scenario Session.

Implicit Types (c : campaign) (s : state) (e : event) (r : request).

Lemma listener_request_types (rest : list request) :
  Forall listener_request rest →
  Forall (λ ty, ty = JStr "call_result" ∨ ty = JStr "call_ended")
    (field "type" <$> (req_data <$> rest)).
Proof.
  intros H. rewrite <- list_fmap_compose. apply Forall_fmap.
  eapply Forall_impl; [exact H|]. intros r [(Hty & _)|(Hty & _)]; cbn; auto.
Qed.

(** X11.  The order of a session's events.  In a session that is alerted
    once, whatever else the platform does, what has been emitted is:
    nothing; or [call_error] alone; or [call_started] followed by
    [call_error] alone; or [call_started] followed by [call_result] and
    [call_ended] events only.  So [call_started] is emitted at most once
    and before anything else but a lone [call_error]. *)
Theorem emitted_event_order c evs :
  single_call evs →
  let tys := emitted_types (fst (run c evs initial)) in
  tys = [] ∨
  tys = [JStr "call_error"] ∨
  tys = [JStr "call_started"; JStr "call_error"] ∨
  ∃ rest, tys = JStr "call_started" :: rest ∧
          Forall (λ ty, ty = JStr "call_result" ∨ ty = JStr "call_ended") rest.
Proof.
  intros _. cbv zeta. set (s := fst (run c evs initial)).
  assert (H : phase s) by apply run_phase, phase_initial.
  unfold emitted_types, emitted.
  destruct H as [s Ha Hc Hg Hls Hr | s r1 Ha Hc Hg Hls Hr Hst
                | s r1 Ha Hc Hg Hls Hr Hst
                | s pre r1 Ha Hc Hg Hls Hr Her Hpre
                | s r1 rest Ha Hc Hg Hls Hr Hst Hrest];
    rewrite Hr.
  - by left.
  - right. right. right. exists []. destruct Hst as (Hty & _). cbn.
    rewrite Hty. by split.
  - right. right. right. exists []. destruct Hst as (Hty & _). cbn.
    rewrite Hty. by split.
  - destruct Her as (Hty & _).
    destruct Hpre as [->|(r0 & -> & (Hty0 & _))]; cbn.
    + right. left. by rewrite Hty.
    + right. right. left. by rewrite Hty0, Hty.
  - right. right. right. destruct Hst as (Hty & _). cbn. rewrite Hty.
    eexists. split; [done|]. by apply listener_request_types.
Qed.

Lemma emitted_event_order_witness :
  let evs := [CallAlerting (ParsedObject (lead "c1")) (JStr "vox") "t0";
              HttpSettled 0 (Responded 200);
              GeminiSettled Connected;
              ToolCall (save "f1" "NEEDS_HELP" 4);
              HttpSettled 1 (Rejected (JStr "timeout"));
              Disconnected] in
  let tys := emitted_types (fst (run RegistrationRecovery evs initial)) in
  single_call evs ∧
  tys = [JStr "call_started"; JStr "call_result"; JStr "call_ended"] ∧
  (tys = [] ∨
   tys = [JStr "call_error"] ∨
   tys = [JStr "call_started"; JStr "call_error"] ∨
   ∃ rest, tys = JStr "call_started" :: rest ∧
           Forall (λ ty, ty = JStr "call_result" ∨ ty = JStr "call_ended") rest).
Proof.
  intros evs tys.
  assert (Hone : single_call evs) by (unfold single_call; vm_compute; lia).
  split; [exact Hone|]. split; [reflexivity|].
  exact (emitted_event_order RegistrationRecovery evs Hone).
Defined.

Lemma field_stringify (data : webhook) (k : string) :
  NoDup (keys data) →
  field k (JSON_stringify data) = field k data.
Proof.
  unfold JSON_stringify, keys, webhook in *.
  induction data as [|[k' v] data IH]; [done|].
  rewrite fmap_cons, NoDup_cons. cbn [fst]. intros [Hk' Hnd].
  destruct (decide (v = JUndefined)) as [->|Hv].
  - rewrite filter_cons_False by (intros H; by apply H). rewrite IH by done.
    cbn [field]. case_decide as Hk; [|done]. subst k'.
    clear IH Hnd. induction data as [|[k2 v2] data IH]; [done|].
    rewrite fmap_cons, not_elem_of_cons in Hk'. destruct Hk' as [Hne Hk'].
    cbn in *. rewrite decide_False by done. by apply IH.
  - rewrite filter_cons_True by done. cbn [field]. case_decide; [done|].
    by apply IH.
Qed.

(** Reading a key from the serialized body gives what reading it
    from the object gives: [JSON.stringify] leaves out the undefined
    values only, and those read as [undefined] either way.  (An object has
    each key once.) *)
Theorem stringify_keeps_fields (data : webhook) (k : string) :
  NoDup (keys data) →
  field k (JSON_stringify data) = field k data.
Proof. apply field_stringify. Qed.

Lemma stringify_keeps_fields_witness :
  let data := call_error_event empty_callData (JStr "Unexpected token") in
  NoDup (keys data) ∧
  field "call_id" (JSON_stringify data) = JUndefined ∧
  field "error" (JSON_stringify data) = JStr "Unexpected token".
Proof.
  intros data.
  assert (Hnd : NoDup (keys data)).
  { cbn. repeat (apply NoDup_cons; split;
      [rewrite ?not_elem_of_cons; repeat split; try done; apply not_elem_of_nil|]).
    apply NoDup_nil_2. }
  split; [exact Hnd|]. split.
  - rewrite (stringify_keeps_fields data "call_id" Hnd). reflexivity.
  - rewrite (stringify_keeps_fields data "error" Hnd). reflexivity.
Defined.

(** [VoxEngine.terminate()] ends the session: from then on no event
    emits, logs or changes anything. *)
Theorem nothing_after_terminate c evs s :
  terminated s = true → run c evs s = (s, []).
Proof.
  intros Ht. induction evs as [|e evs IH]; [done|].
  cbn [run]. rewrite step_terminated by done. by rewrite IH.
Qed.

Lemma nothing_after_terminate_witness :
  let s := fst (run RegistrationRecovery
                  [CallAlerting (ParseThrows (JStr "Unexpected token") JUndefined)
                     (JStr "vox") "t0";
                   HttpSettled 0 (Rejected (JStr "timeout"))] initial) in
  terminated s = true ∧
  run RegistrationRecovery
    [Disconnected; ToolCall (save "f1" "NEEDS_HELP" 4); TimerFires 0;
     GeminiSettled Connected] s = (s, []).
Proof.
  intros s. split; [reflexivity|].
  apply (nothing_after_terminate RegistrationRecovery
           [Disconnected; ToolCall (save "f1" "NEEDS_HELP" 4); TimerFires 0;
            GeminiSettled Connected] s).
  reflexivity.
Defined.







Lemma step_advance c s e :
  terminated s = false → advance c s (fst (step c s e)).
Proof.
  intros Ht. destruct e as [cdt v now|i o|o|evt|fc| | |t].
  - destruct (alerted s) eqn:Ha.
    { apply Stays. unfold step, handler. by rewrite Ht, Ha. }
    destruct (setup_exception cdt) as [[m st]|] eqn:Hx.
    + rewrite (step_CallAlerting_throws c s cdt m st) by done.
      eapply Issues; cycle 1; reflexivity.
    + destruct cdt as [| |ld]; try done.
      rewrite step_CallAlerting_parsed by done. eapply Issues; cycle 1; reflexivity.
  - destruct (requests s !! i) as [r|] eqn:Hi.
    2:{ apply Stays. unfold step, handler. by rewrite Ht, Hi. }
    destruct (req_settled r) eqn:Hs.
    { apply Stays. unfold step, handler. by rewrite Ht, Hi, Hs. }
    rewrite (step_HttpSettled_pending c s i r o) by done.
    rewrite exec_settle. cbn [fst].
    destruct (req_cont r) as [|id p| | |] eqn:Hk.
    + apply (SettlesSetup _ _ _ i r); try done.
      all: unfold ledger; cbn; by rewrite ?Ht.
    + apply (SettlesResult _ _ _ i r id p); try done.
      all: rewrite resume_ToolCall; unfold ledger; cbn; by rewrite ?Ht.
    + apply (SettlesEnded _ _ _ i r); try done; try (by left).
      all: unfold ledger, exec, resume, ended_resumed, close_geminiClient,
        mbind, Rt_bind, get; by destruct (geminiClient _).
    + apply (SettlesEnded _ _ _ i r); try done; try (by right).
      all: unfold ledger, exec, resume, ended_resumed, close_geminiClient,
        mbind, Rt_bind, get; by destruct (geminiClient _).
    + apply (SettlesError _ _ _ i r); try done.
  - destruct (connecting s) eqn:Hco.
    2:{ apply Stays. unfold step, handler. by rewrite Ht, Hco. }
    destruct o as [|m st].
    + apply Stays. by rewrite step_GeminiSettled_connected.
    + rewrite step_GeminiSettled_failed by done. eapply Issues; cycle 1; reflexivity.
  - apply Stays. unfold step, handler. rewrite Ht.
    by destruct (connecting s || _), c.
  - destruct (toolCallListener s) eqn:Hl.
    2:{ apply Stays. unfold step, handler. by rewrite Ht, Hl. }
    destruct (decide (fc_name fc = JStr "save_call_result")) as [Hn|Hn].
    2:{ apply Stays. unfold step, handler, on_ToolCall. rewrite Ht, Hl.
        by case_decide. }
    destruct (fc_parameters fc) as [p|] eqn:Hp.
    2:{ apply Stays. unfold step, handler, on_ToolCall. rewrite Ht, Hl, Hp.
        by case_decide. }
    rewrite (step_ToolCall_save c s fc p) by done. eapply Issues; cycle 1; reflexivity.
  - destruct (disconnectedListener s) eqn:Hl.
    2:{ apply Stays. unfold step, handler. by rewrite Ht, Hl. }
    rewrite step_Disconnected by done. eapply Issues; cycle 1; reflexivity.
  - destruct (failedListener s) eqn:Hl.
    2:{ apply Stays. unfold step, handler. by rewrite Ht, Hl. }
    rewrite step_Failed by done. eapply Issues; cycle 1; reflexivity.
  - destruct (timers s !! t) as [tm|] eqn:Htm.
    2:{ apply Stays. unfold step, handler. by rewrite Ht, Htm. }
    destruct (fired tm) eqn:Hf.
    { apply Stays. unfold step, handler. by rewrite Ht, Htm, Hf. }
    rewrite (step_TimerFires_armed c s t tm) by done.
    by apply (Expires _ _ _ t tm).
Qed.

Lemma phase_typed s : phase s → Forall typed_request (requests s).
Proof.
  assert (Hl : ∀ rest, Forall listener_request rest → Forall typed_request rest).
  { intros rest H. eapply Forall_impl; [exact H|].
    intros r [(? & ?)|(? & ?)]; [right; left|right; right; left]; done. }
  intros H.
  destruct H as [s Ha Hc Hg Hls Hr | s r1 Ha Hc Hg Hls Hr Hst
                | s r1 Ha Hc Hg Hls Hr Hst
                | s pre r1 Ha Hc Hg Hls Hr Her Hpre
                | s r1 rest Ha Hc Hg Hls Hr Hst Hrest];
    rewrite Hr.
  - constructor.
  - apply Forall_singleton. left. by destruct Hst as (? & ? & _).
  - apply Forall_singleton. left. by destruct Hst as (? & ? & _).
  - apply Forall_app. split.
    + destruct Hpre as [->|(r0 & -> & (? & ? & _))]; [constructor|].
      apply Forall_singleton. by left.
    + apply Forall_singleton. right. right. by right.
  - constructor; [left; by destruct Hst as (? & ? & _)|by apply Hl].
Qed.

Lemma count_alter_same {A} (P : A → Prop) `{∀ x, Decision (P x)}
    (f : A → A) (l : list A) i x :
  l !! i = Some x → (P (f x) ↔ P x) →
  length (filter P (alter f i l)) = length (filter P l).
Proof.
  revert i. induction l as [|y l IH]; intros [|i] Hi Hiff; try done.
  - injection Hi as ->. change (alter f 0 (x :: l)) with (f x :: l).
    destruct (decide (P x)) as [Hx|Hx].
    + rewrite !filter_cons_True by tauto. done.
    + rewrite !filter_cons_False by tauto. done.
  - change (alter f (S i) (y :: l)) with (y :: alter f i l).
    change ((y :: l) !! S i) with (l !! i) in Hi.
    destruct (decide (P y)).
    + rewrite !filter_cons_True by done. cbn [length]. f_equal. by apply IH.
    + rewrite !filter_cons_False by done. by apply IH.
Qed.

Lemma count_alter_gain {A} (P : A → Prop) `{∀ x, Decision (P x)}
    (f : A → A) (l : list A) i x :
  l !! i = Some x → ¬ P x → P (f x) →
  length (filter P (alter f i l)) = S (length (filter P l)).
Proof.
  revert i. induction l as [|y l IH]; intros [|i] Hi Hn Hp; try done.
  - injection Hi as ->. change (alter f 0 (x :: l)) with (f x :: l).
    rewrite filter_cons_True, filter_cons_False by done. done.
  - change (alter f (S i) (y :: l)) with (y :: alter f i l).
    change ((y :: l) !! S i) with (l !! i) in Hi.
    destruct (decide (P y)).
    + rewrite !filter_cons_True by done. cbn [length]. f_equal. by apply IH.
    + rewrite !filter_cons_False by done. by apply IH.
Qed.

Lemma count_snoc_out {A} (P : A → Prop) `{∀ x, Decision (P x)} (l : list A) x :
  ¬ P x → length (filter P (l ++ [x])) = length (filter P l).
Proof.
  intros Hx. rewrite filter_app, (filter_cons_False _ _ []) by done.
  by rewrite filter_nil, app_nil_r.
Qed.

Lemma count_snoc_in {A} (P : A → Prop) `{∀ x, Decision (P x)} (l : list A) x :
  P x → length (filter P (l ++ [x])) = S (length (filter P l)).
Proof.
  intros Hx. rewrite filter_app, (filter_cons_True _ _ []) by done.
  rewrite filter_nil, length_app. cbn. lia.
Qed.

Lemma has_type_unique ty ty' r : has_type ty r → has_type ty' r → ty = ty'.
Proof. unfold has_type. congruence. Qed.

Lemma typed_by_cont r :
  typed_request r →
  (req_cont r = ResumeSetup → has_type "call_started" r) ∧
  (∀ id p, req_cont r = ResumeToolCall id p → has_type "call_result" r) ∧
  (req_cont r = ResumeDisconnected ∨ req_cont r = ResumeFailed →
   has_type "call_ended" r) ∧
  (req_cont r = ResumeCatch → has_type "call_error" r).
Proof.
  intros [(? & ?)|[(? & ? & ? & ?)|[(? & [?|?])|(? & ?)]]];
    repeat split; try done; try congruence; intros; try congruence;
    destruct_or?; congruence.
Qed.

(** How the three counts of settled requests move when a request of a
    given type settles. *)
Lemma count_settle l i r ty :
  l !! i = Some r → req_settled r = false → has_type ty r →
  length (filter terminal_settled (alter settle i l)) =
    length (filter terminal_settled l) +
    (if decide (ty = "call_ended" ∨ ty = "call_error") then 1 else 0) ∧
  length (filter result_settled (alter settle i l)) =
    length (filter result_settled l) +
    (if decide (ty = "call_result") then 1 else 0) ∧
  length (filter error_settled (alter settle i l)) =
    length (filter error_settled l) +
    (if decide (ty = "call_error") then 1 else 0).
Proof.
  intros Hi Hs Hty.
  assert (Hn1 : ¬ terminal_settled r) by (intros [? _]; congruence).
  assert (Hn2 : ¬ result_settled r) by (intros [? _]; congruence).
  assert (Hn3 : ¬ error_settled r) by (intros [? _]; congruence).
  assert (Hty' : ∀ ty', has_type ty' (settle r) ↔ ty = ty').
  { intros ty'. split; [by apply has_type_unique|by intros <-]. }
  split; [|split]; case_decide as Hd.
  - rewrite (count_alter_gain _ settle _ i r) by
      (first [done | split; [done|]; rewrite !Hty'; tauto]). lia.
  - rewrite (count_alter_same _ settle _ i r) by
      (first [done | split; [intros [_ Hc]; rewrite !Hty' in Hc; tauto|done]]). lia.
  - rewrite (count_alter_gain _ settle _ i r) by
      (first [done | split; [done|]; by rewrite Hty']). lia.
  - rewrite (count_alter_same _ settle _ i r) by
      (first [done | split; [intros [_ Hc]; rewrite Hty' in Hc; tauto|done]]). lia.
  - rewrite (count_alter_gain _ settle _ i r) by
      (first [done | split; [done|]; by rewrite Hty']). lia.
  - rewrite (count_alter_same _ settle _ i r) by
      (first [done | split; [intros [_ Hc]; rewrite Hty' in Hc; tauto|done]]). lia.
Qed.

Lemma advance_consistent c s s' :
  terminated s = false → Forall typed_request (requests s) →
  advance c s s' → consistent s → consistent s'.
Proof.
  intros Ht Hty Hadv (Hterm & Hack & Htim & Hok & Hhang).
  assert (Hzero : length (filter terminal_settled (requests s)) = 0).
  { destruct (length (filter terminal_settled (requests s))) eqn:E; [done|].
    assert (terminated s = true) by (apply Hterm; lia). congruence. }
  assert (Htyped : ∀ i r, requests s !! i = Some r → typed_request r).
  { intros i r Hi. rewrite Forall_lookup in Hty. by apply Hty in Hi. }
  unfold consistent.
  destruct Hadv as [Hl | r Hs Hl | i r Hi Hs Hk Hl | i r id p Hi Hs Hk Hl
                   | i r Hi Hs Hk Hl | i r Hi Hs Hk Hl | t tm Htm Hf Hl];
    unfold ledger in Hl;
    injection Hl as Hl1 Hl2 Hl3 Hl4 Hl5;
    rewrite Hl1, Hl2, Hl3, Hl4, Hl5.
  - exact (conj Hterm (conj Hack (conj Htim (conj Hok Hhang)))).
  - rewrite !count_snoc_out
      by (unfold terminal_settled, result_settled, error_settled;
          rewrite Hs; intros [? _]; done).
    exact (conj Hterm (conj Hack (conj Htim (conj Hok Hhang)))).
  - destruct (typed_by_cont r (Htyped i r Hi)) as (Hst & _).
    destruct (count_settle _ i r "call_started" Hi Hs (Hst Hk)) as (-> & -> & ->).
    rewrite !decide_False by (try intros [?|?]; done).
    rewrite !Nat.add_0_r.
    exact (conj Hterm (conj Hack (conj Htim (conj Hok Hhang)))).
  - destruct (typed_by_cont r (Htyped i r Hi)) as (_ & Hst & _).
    destruct (count_settle _ i r "call_result" Hi Hs (Hst id p Hk)) as (-> & -> & ->).
    rewrite (decide_True (P := @eq string "call_result" "call_result")) by done.
    rewrite !decide_False by (try intros [?|?]; done).
    rewrite !Nat.add_0_r, !length_app. cbn [length].
    rewrite (count_snoc_out expired) by done.
    split; [exact Hterm|]. split; [lia|]. split; [lia|]. split; [|exact Hhang].
    apply Forall_app. split; [done|]. by apply Forall_singleton.
  - destruct (typed_by_cont r (Htyped i r Hi)) as (_ & _ & Hst & _).
    destruct (count_settle _ i r "call_ended" Hi Hs (Hst Hk)) as (-> & -> & ->).
    rewrite (decide_True (P := @eq string "call_ended" "call_ended" ∨
                               @eq string "call_ended" "call_error")) by (by left).
    rewrite !decide_False by done.
    rewrite !Nat.add_0_r.
    split; [split; [lia|done]|]. exact (conj Hack (conj Htim (conj Hok Hhang))).
  - destruct (typed_by_cont r (Htyped i r Hi)) as (_ & _ & _ & Hst).
    destruct (count_settle _ i r "call_error" Hi Hs (Hst Hk)) as (-> & -> & ->).
    rewrite (decide_True (P := @eq string "call_error" "call_ended" ∨
                               @eq string "call_error" "call_error")) by (by right).
    rewrite (decide_True (P := @eq string "call_error" "call_error")) by done.
    rewrite !decide_False by done.
    rewrite !Nat.add_0_r.
    split; [split; [lia|done]|]. split; [exact Hack|]. split; [exact Htim|].
    split; [exact Hok|]. lia.
  - rewrite (count_alter_gain expired expire _ t tm)
      by (first [done | unfold expired; congruence]).
    rewrite length_alter.
    split; [exact Hterm|]. split; [exact Hack|]. split; [exact Htim|].
    split; [exact Hok|]. lia.
Qed.

Lemma consistent_initial : consistent initial.
Proof.
  unfold consistent. cbn. repeat split; try done; lia.
Qed.

Lemma run_consistent c evs s :
  phase s → consistent s → consistent (fst (run c evs s)).
Proof.
  revert s. induction evs as [|e evs IH]; intros s Hph Hc; [done|].
  rewrite run_cons_fst. apply IH; [by apply step_phase|].
  destruct (terminated s) eqn:Ht; [by rewrite step_terminated|].
  eapply advance_consistent; [done | by apply phase_typed | | done].
  by apply step_advance.
Qed.

Lemma Exists_count {A} (P : A → Prop) `{∀ x, Decision (P x)} (l : list A) :
  Exists P l ↔ 0 < length (filter P l).
Proof.
  induction l as [|x l IH]; [rewrite Exists_nil; cbn; lia|].
  rewrite Exists_cons. destruct (decide (P x)).
  - rewrite filter_cons_True by done. cbn. split; [lia|auto].
  - rewrite filter_cons_False by done. tauto.
Qed.

(** X13.  A session ends exactly when the POST of a terminal event has
    settled: in any run [VoxEngine.terminate()] has been called if and only
    if some [call_ended] or [call_error] request has settled.  It never
    ends without having emitted its terminal event, and never runs on once
    that POST has settled, answered or failed. *)
Theorem terminated_iff_terminal_post_settled c evs :
  let s := fst (run c evs initial) in
  terminated s = true ↔ Exists terminal_settled (requests s).
Proof.
  intros s. rewrite Exists_count.
  by destruct (run_consistent c evs initial phase_initial consistent_initial).
Qed.

(** X14.  Every captured result is acknowledged once, always as a success.
    In any run the tool responses sent to Gemini and the hang-up timers
    armed are each as many as the [call_result] requests that have
    settled, and every response says [success: true] -- also when the POST
    was rejected or answered with an error status. *)
Theorem one_acknowledgement_per_settled_result c evs :
  let s := fst (run c evs initial) in
  length (toolResponses s) = length (filter result_settled (requests s)) ∧
  length (timers s) = length (filter result_settled (requests s)) ∧
  Forall (λ tr, tr_success tr = true) (toolResponses s).
Proof.
  intros s.
  by destruct (run_consistent c evs initial phase_initial consistent_initial)
    as (_ & ? & ? & ? & _).
Qed.

(** X15.  The runtime hangs up for two reasons only.  In any run the
    [call.hangup()] calls are as many as the grace timers that have expired
    plus the [call_error] requests that have settled; no other path ends
    the call leg. *)
Theorem hangups_accounted_for c evs :
  let s := fst (run c evs initial) in
  hangups s = length (filter expired (timers s)) +
              length (filter error_settled (requests s)).
Proof.
  intros s.
  by destruct (run_consistent c evs initial phase_initial consistent_initial)
    as (_ & _ & _ & _ & ?).
Qed.

(** X16.  The outcome is relayed as received.  Whatever parameters
    [save_call_result] comes with -- inside the declared enum and score
    bounds or not -- the body posted carries them unchanged, next to the
    session's [call_id]: nothing is checked against the [TOOLS]
    declaration. *)
Theorem outcome_relayed_unvalidated c s fc p :
  terminated s = false → toolCallListener s = true →
  fc_name fc = JStr "save_call_result" → fc_parameters fc = Some p →
  ∃ r, requests (fst (step c s (ToolCall fc))) = requests s ++ [r] ∧
       field "type" (postData r) = JStr "call_result" ∧
       field "call_id" (postData r) = cd_call_id (callData s) ∧
       field "disposition" (postData r) = tp_disposition p ∧
       field "cx_score" (postData r) = tp_cx_score p ∧
       field "summary" (postData r) = tp_summary p.
Proof.
  intros Ht Hl Hn Hp. rewrite (step_ToolCall_save c s fc p) by done.
  eexists. split; [reflexivity|].
  assert (Hnd : NoDup (keys (call_result_event (callData s) p))).
  { apply (bool_decide_unpack _). vm_compute. exact I. }
  unfold postData. cbn [req_data].
  rewrite !field_stringify by done. done.
Qed.

Lemma outcome_relayed_unvalidated_witness :
  let live := fst (run DormantReactivation
                     [CallAlerting (ParsedObject (lead "c1")) (JStr "vox") "t0";
                      HttpSettled 0 (Responded 200);
                      GeminiSettled Connected] initial) in
  let p := {| tp_disposition := JStr "COMPLETED_REGISTRATION";
              tp_cx_score := JNum 42; tp_summary := JUndefined |} in
  let fc := {| fc_name := JStr "save_call_result"; fc_id := JStr "f1";
               fc_parameters := Some p |} in
  (terminated live = false ∧ toolCallListener live = true) ∧
  ¬ conforms DormantReactivation p ∧
  ∃ r, requests (fst (step DormantReactivation live (ToolCall fc)))
         = requests live ++ [r] ∧
       field "cx_score" (postData r) = JNum 42.
Proof.
  intros live p fc. split; [by split|]. split.
  - intros (_ & (n & Hn & Hb) & _). cbn in Hn. injection Hn as <-.
    unfold cx_score_maximum in Hb. lia.
  - destruct (outcome_relayed_unvalidated DormantReactivation live fc p)
      as (r & Hr & _ & _ & _ & Hcx & _); try reflexivity.
    exists r. split; [exact Hr | exact Hcx].
Defined.

End SessionFacts.
